(** * LockraWalletAI: the utility helpers and the fresh-mint poller

    A shallow embedding of the two Python scripts of the repository,

      - [daemonFlows/assistants/Utils.py]     (modules [Utils] and [Run])
      - [daemonFlows/jobs/trackFreshMints.py] (module [TrackFreshMints])

    and the properties their specification states about them.

    Python exceptions are values of [exn]; a computation that may raise
    returns a [result].  Python's [int] is [Z], its [float] is a binary64
    primitive float, a [list] is a [list]; where it matters that a list is
    an object that a call could write to, it is an address in a store. *)

From Stdlib Require Import String Ascii ZArith Bool Lia List.
From Stdlib Require Import Floats Uint63.
Import ListNotations.

Open Scope Z_scope.

(** ** Exceptions and the error monad *)

Module Py.

(** The exceptions that the two scripts can meet.  [RpcError] stands for
    whatever the RPC client library raises on a network failure, [OSError]
    for a failure of writing to the standard output, and
    [KeyboardInterrupt] for the exception a signal raises. *)
Inductive exn : Type :=
| ValueError
| ZeroDivisionError
| OverflowError
| TypeError
| KeyError
| IndexError
| RpcError (msg : string)
| OSError
| KeyboardInterrupt.

Inductive result (A : Type) : Type :=
| Ok (a : A)
| Raise (e : exn).

Arguments Ok {A} a.
Arguments Raise {A} e.

Definition bind {A B : Type} (m : result A) (k : A -> result B) : result B :=
  match m with
  | Ok a => k a
  | Raise e => Raise e
  end.

Definition is_ok {A : Type} (m : result A) : bool :=
  match m with
  | Ok _ => true
  | Raise _ => false
  end.

End Py.

Import Py.

Declare Scope py_scope.
Delimit Scope py_scope with py.
Notation "x <- m ;; k" := (bind m (fun x => k))
  (at level 61, m at next level, right associativity) : py_scope.
Open Scope py_scope.

(** ** Built-ins used by the helpers *)

Module Builtins.

(** [len(data)] *)
Definition len {A : Type} (data : list A) : Z := Z.of_nat (List.length data).

(** [range(start, stop, step)], as the list of the values it yields.  A zero
    step is a [ValueError]; the number of values is the one CPython computes
    for its range object. *)
Definition range_len (start stop step : Z) : Z :=
  if 0 <? step then
    if start <? stop then (stop - start - 1) / step + 1 else 0
  else
    if stop <? start then (start - stop - 1) / (- step) + 1 else 0.

Definition range (start stop step : Z) : result (list Z) :=
  if step =? 0 then Raise ValueError
  else Ok (map (fun k => start + Z.of_nat k * step)
               (seq 0 (Z.to_nat (range_len start stop step)))).

(** A slice bound is brought into [0 .. len]: a negative bound counts from
    the end, and anything beyond an end is clipped to it. *)
Definition clip (n i : Z) : Z :=
  if i <? 0 then Z.max (i + n) 0 else Z.min i n.

(** [data[lo:hi]] *)
Definition slice {A : Type} (data : list A) (lo hi : Z) : list A :=
  let lo' := clip (len data) lo in
  let hi' := clip (len data) hi in
  firstn (Z.to_nat (hi' - lo')) (skipn (Z.to_nat lo') data).

(** *** Numbers

    A number is an [int] or a [float]; a [bool] is the integer 0 or 1. *)
Inductive number : Type :=
| Int (z : Z)
| Float (x : float).

(** [float(z)] for an integer: the nearest float, ties to even; an integer
    too large for a float is an [OverflowError]. *)
Definition float_of_int (z : Z) : result float :=
  match binary_normalize prec emax z 0 false with
  | S754_infinity _ => Raise OverflowError
  | sf => Ok (SF2Prim sf)
  end.

(** [a + b]: two integers are added exactly; when one operand is a float
    the other is converted to a float and the floats are added. *)
Definition add (a b : number) : result number :=
  match a, b with
  | Int x, Int y => Ok (Int (x + y))
  | Int x, Float y => x' <- float_of_int x ;; Ok (Float (PrimFloat.add x' y))
  | Float x, Int y => y' <- float_of_int y ;; Ok (Float (PrimFloat.add x y'))
  | Float x, Float y => Ok (Float (PrimFloat.add x y))
  end.

(** [sum(values)] as CPython computes it before version 3.12: the values
    are added from the left, starting from the integer [0]. *)
Fixpoint sum_from (acc : number) (values : list number) : result number :=
  match values with
  | [] => Ok acc
  | v :: rest => s <- add acc v ;; sum_from s rest
  end.

Definition sum_plain (values : list number) : result number :=
  sum_from (Int 0) values.


(** An integer as the quotient of integers sees it. *)
Definition sf_of_int (z : Z) : spec_float :=
  match z with
  | Z0 => S754_zero false
  | Zpos p => S754_finite false p 0
  | Zneg p => S754_finite true p 0
  end.

(** [a / b] for two integers: the float nearest to the exact quotient,
    rounded once; a zero divisor is a [ZeroDivisionError], a quotient too
    large for a float an [OverflowError]. *)
Definition int_truediv (a b : Z) : result float :=
  if b =? 0 then Raise ZeroDivisionError
  else
    match SFdiv prec emax (sf_of_int a) (sf_of_int b) with
    | S754_infinity _ => Raise OverflowError
    | sf => Ok (SF2Prim sf)
    end.

(** [x / n] for a number [x] and an integer [n]. *)
Definition truediv (x : number) (n : Z) : result float :=
  match x with
  | Int a => int_truediv a n
  | Float x =>
      d <- float_of_int n ;;
      if n =? 0 then Raise ZeroDivisionError else Ok (PrimFloat.div x d)
  end.

(** [int(x)] for a float [x]: truncation towards zero; an infinity is an
    [OverflowError] and a NaN a [ValueError]. *)
Definition int_of_float (x : float) : result Z :=
  match Prim2SF x with
  | S754_zero _ => Ok 0
  | S754_finite s m e =>
      Ok (cond_Zopp s (if 0 <=? e then Z.pos m * 2 ^ e
                       else Z.pos m / 2 ^ (- e)))
  | S754_infinity _ => Raise OverflowError
  | S754_nan => Raise ValueError
  end.

End Builtins.

(** ** The store

    Python lists are objects: a call that is handed a list could write to
    it.  The store holds the list objects, each at its address, and the
    reading of the system clock. *)

Module Store.

Import Builtins.

Definition addr : Type := nat.

(** An item of a list: a number, or a reference to a list object. *)
Inductive val : Type :=
| Num (x : number)
| Ref (a : addr).

(** The world a call runs in: the reading of the clock, [time.time()], in
    seconds, and the list objects there are. *)
Record world : Type := {
  clock : float;
  heap : list (list val)
}.

(** The list object at an address. *)
Definition obj (w : world) (a : addr) : list val := nth a (heap w) [].

(** A computation that runs in a world and leaves a world. *)
Definition M (X : Type) : Type := world -> result X * world.

Definition ret {X : Type} (x : X) : M X := fun w => (Ok x, w).

Definition raise {X : Type} (e : exn) : M X := fun w => (Raise e, w).

Definition lift {X : Type} (r : result X) : M X := fun w => (r, w).

Definition bindM {X Y : Type} (m : M X) (k : X -> M Y) : M Y :=
  fun w =>
    match m w with
    | (Ok x, w') => k x w'
    | (Raise e, w') => (Raise e, w')
    end.

(** [time.time()] *)
Definition read_clock : M float := fun w => (Ok (clock w), w).

(** Reading the items of a list object. *)
Definition items (a : addr) : M (list val) := fun w => (Ok (obj w a), w).

(** A new list object, at an address no object has yet. *)
Definition new_list (l : list val) : M addr :=
  fun w =>
    (Ok (length (heap w)), {| clock := clock w; heap := heap w ++ [l] |}).

Fixpoint update (a : addr) (f : list val -> list val)
  (h : list (list val)) : list (list val) :=
  match h, a with
  | [], _ => []
  | l :: h', O => f l :: h'
  | l :: h', S a' => l :: update a' f h'
  end.

(** [a.append(v)]: the list object at [a] gets one more item. *)
Definition append (a : addr) (v : val) : M unit :=
  fun w =>
    (Ok tt,
     {| clock := clock w;
        heap := update a (fun l => l ++ [v]) (heap w) |}).

(** [for x in xs: body(x)] *)
Fixpoint for_each {X : Type} (xs : list X) (body : X -> M unit) : M unit :=
  match xs with
  | [] => ret tt
  | x :: rest => bindM (body x) (fun _ => for_each rest body)
  end.

End Store.

Declare Scope run_scope.
Delimit Scope run_scope with run.
Notation "x <~ m ;; k" := (Store.bindM m (fun x => k))
  (at level 61, m at next level, right associativity) : run_scope.

(** ** Utils.py *)

Module Utils.

Import Builtins Store.

(** [def now_ms() -> int: return int(time.time() * 1000)], from the world
    it is called in. *)
Definition now_ms (w : world) : result Z :=
  int_of_float (PrimFloat.mul (clock w) 1000%float).

(** [def chunk_list(data, size):
       return [data[i : i + size] for i in range(0, len(data), size)]] *)
Definition chunk_list {A : Type} (data : list A) (size : Z)
  : result (list (list A)) :=
  r <- range 0 (len data) size ;;
  Ok (map (fun i => slice data i (i + size)) r).

(** [def flatten(list_of_lists):
       return [item for sublist in list_of_lists for item in sublist]] *)
Definition flatten {A : Type} (list_of_lists : list (list A)) : list A :=
  flat_map (fun sublist => map (fun item => item) sublist) list_of_lists.

(** [def mean(values):
       return sum(values) / len(values) if values else 0.0]

    [sum] is the built-in, see [sum_laws]; [sum_plain] is one. *)
Definition mean (sum : list number -> result number)
  (values : list number) : result float :=
  match values with
  | [] => Ok 0%float
  | _ :: _ => s <- sum values ;; truediv s (len values)
  end.

End Utils.

(** ** Utils.py on list objects

    The same four functions as Python runs them: handed the addresses of
    list objects, reading and writing the store as their bodies do. *)

Module Run.

Import Builtins Store.

#[local] Open Scope run_scope.

(** [int(time.time() * 1000)] *)
Definition now_ms : M Z :=
  t <~ read_clock ;;
  lift (int_of_float (PrimFloat.mul t 1000%float)).

(** [[data[i : i + size] for i in range(0, len(data), size)]]: the range is
    made first; the comprehension then fills a new list, each slice being
    a new list of the items of [data] it spans. *)
Definition chunk_list (data : addr) (size : Z) : M addr :=
  l <~ items data ;;
  r <~ lift (range 0 (len l) size) ;;
  out <~ new_list [] ;;
  _ <~ for_each r (fun i =>
         l' <~ items data ;;
         chunk <~ new_list (slice l' i (i + size)) ;;
         append out (Ref chunk)) ;;
  ret out.

(** [[item for sublist in list_of_lists for item in sublist]]: a new list
    is filled with the items of each sublist; a number is not a list that
    could be gone through. *)
Definition flatten (list_of_lists : addr) : M addr :=
  subs <~ items list_of_lists ;;
  out <~ new_list [] ;;
  _ <~ for_each subs (fun sublist =>
         match sublist with
         | Ref s =>
             its <~ items s ;;
             for_each its (fun item => append out item)
         | Num _ => raise TypeError
         end) ;;
  ret out.

(** The numbers a list starts with, and whether an item that is no number
    follows them. *)
Fixpoint leading_numbers (l : list val) : list number * bool :=
  match l with
  | [] => ([], false)
  | Num x :: rest =>
      let (xs, more) := leading_numbers rest in (x :: xs, more)
  | Ref _ :: _ => ([], true)
  end.

(** [sum(values) / len(values) if values else 0.0]: [sum] adds the items
    from the left, and adding a list to a number is a [TypeError]. *)
Definition mean (sum : list number -> result number) (values : addr)
  : M float :=
  l <~ items values ;;
  match l with
  | [] => ret 0%float
  | _ :: _ =>
      let (xs, more) := leading_numbers l in
      s <~ lift (sum xs) ;;
      if more then raise TypeError
      else
        l' <~ items values ;;
        lift (truediv s (len l'))
  end.

End Run.

(** ** trackFreshMints.py *)

Module TrackFreshMints.

(** A decoded RPC response: the values JSON can hold, as Python objects.
    The numbers of the RPC interface are integers (a slot is an unsigned
    64-bit integer); a response with a number that has a fraction or an
    exponent is not among them.  A [dict] keeps its entries in order; a key
    is looked up from the front. *)
#[warnings="-register-all"]
Inductive pyval : Type :=
| PyNone
| PyBool (b : bool)
| PyInt (z : Z)
| PyStr (s : string)
| PyList (items : list pyval)
| PyDict (entries : list (string * pyval)).

(** The integer an object counts as in arithmetic and in comparisons with
    integers: an [int] is itself, a [bool] is [0] or [1]. *)
Definition as_int (v : pyval) : option Z :=
  match v with
  | PyInt z => Some z
  | PyBool b => Some (Z.b2z b)
  | _ => None
  end.

Fixpoint lookup (key : string) (entries : list (string * pyval))
  : option pyval :=
  match entries with
  | [] => None
  | (k, v) :: rest => if String.eqb k key then Some v else lookup key rest
  end.

(** [v[key]] for a string [key] *)
Definition getitem_key (v : pyval) (key : string) : result pyval :=
  match v with
  | PyDict entries =>
      match lookup key entries with
      | Some x => Ok x
      | None => Raise KeyError
      end
  | _ => Raise TypeError
  end.

(** The position an index [i] denotes in a sequence of length [n]. *)
Definition position (n i : Z) : result nat :=
  let j := if i <? 0 then i + n else i in
  if (j <? 0) || (n <=? j) then Raise IndexError else Ok (Z.to_nat j).

(** [v[i]] for an integer [i].  The keys of a decoded JSON object are
    strings, so an integer is never one of them. *)
Definition getitem_index (v : pyval) (i : Z) : result pyval :=
  match v with
  | PyList items =>
      k <- position (Z.of_nat (List.length items)) i ;;
      Ok (nth k items PyNone)
  | PyStr s =>
      k <- position (Z.of_nat (String.length s)) i ;;
      Ok (PyStr (String.substring k 1 s))
  | PyDict _ => Raise KeyError
  | _ => Raise TypeError
  end.

(** What [for x in v] goes through: the items of a list, the characters of
    a string, the keys of a dict. *)
Definition iter (v : pyval) : result (list pyval) :=
  match v with
  | PyList items => Ok items
  | PyStr s =>
      Ok (map (fun c => PyStr (String c EmptyString)) (list_ascii_of_string s))
  | PyDict entries => Ok (map (fun kv => PyStr (fst kv)) entries)
  | _ => Raise TypeError
  end.

(** The operand of an arithmetic operation or comparison whose other
    operand is an integer: anything that is not a number is a
    [TypeError]. *)
Definition int_operand (v : pyval) : result Z :=
  match as_int v with
  | Some z => Ok z
  | None => Raise TypeError
  end.

(** The RPC client: the answer of the service to each of the two calls, or
    the exception the call raises. *)
Record Client : Type := {
  get_slot : result pyval;
  get_program_accounts : string -> result pyval
}.

(** The network, as [Client(url)] sees it. *)
Definition network : Type := string -> Client.

Definition RPC_URL : string := "https://api.mainnet-beta.solana.com".
Definition PROGRAM_ID : string := "TokenkegQfeZyiNwAJbNbGKPFXCWuBvf9Ss623VQ5DA".

(** [{"mint": ..., "firstSeenSlot": ...}] *)
Record fresh_mint : Type := {
  mint : pyval;
  firstSeenSlot : pyval
}.

(** The body of the loop of [track_fresh_mints], for one account:

      [slot = acct["account"]["data"][1]
       if start_slot <= slot <= current_slot:
           fresh.append({"mint": acct["pubkey"], "firstSeenSlot": slot})]

    [start_slot] and [current_slot] are integers when the loop is reached.
    The chained comparison stops at the first comparison that is false. *)
Definition visit (start_slot current_slot : Z) (acct : pyval)
  : result (option fresh_mint) :=
  account <- getitem_key acct "account" ;;
  data <- getitem_key account "data" ;;
  slot <- getitem_index data 1 ;;
  s <- int_operand slot ;;
  if start_slot <=? s then
    s' <- int_operand slot ;;
    if s' <=? current_slot then
      pubkey <- getitem_key acct "pubkey" ;;
      Ok (Some {| mint := pubkey; firstSeenSlot := slot |})
    else Ok None
  else Ok None.

Fixpoint scan (start_slot current_slot : Z) (accts : list pyval)
  (fresh : list fresh_mint) : result (list fresh_mint) :=
  match accts with
  | [] => Ok fresh
  | acct :: rest =>
      r <- visit start_slot current_slot acct ;;
      scan start_slot current_slot rest
        (match r with
         | Some m => fresh ++ [m]
         | None => fresh
         end)
  end.

(** [def track_fresh_mints(lookback_slots: int = 5000)] *)
Definition track_fresh_mints (net : network) (lookback_slots : Z)
  : result (list fresh_mint) :=
  let client := net RPC_URL in
  r <- get_slot client ;;
  current_slot <- getitem_key r "result" ;;
  cur <- int_operand current_slot ;;
  let start_slot := cur - lookback_slots in
  resp <- get_program_accounts client PROGRAM_ID ;;
  accounts <- getitem_key resp "result" ;;
  accts <- iter accounts ;;
  scan start_slot cur accts [].

Definition DEFAULT_LOOKBACK : Z := 5000.

(** *** The script run as a program *)

(** What the program does that can be seen from outside. *)
Inductive event : Type :=
| Print_found (count : nat)      (* print(f"Found {len(mints)} fresh mints:") *)
| Print_mint (m : fresh_mint)    (* print("  ", m) *)
| Sleep (seconds : Z).           (* time.sleep(300) *)

Inductive status : Type :=
| Running
| Crashed (e : exn).

Record process : Type := {
  iterations : nat;
  output : list event;
  state : status
}.

Definition start : process :=
  {| iterations := 0; output := []; state := Running |}.

(** What a turn of the loop finds around it: the network, and for each
    call of [print] and of [time.sleep] the exception it raises, if it
    raises one.  The calls of [print] of a turn are counted from 0, the
    heading first.  An exception that a signal raises between two calls is
    the exception of the next call. *)
Record surroundings : Type := {
  net : network;
  print_raises : nat -> option exn;
  sleep_raises : option exn
}.

(** [for m in mints: print("  ", m)], from the [i]-th call of [print] of
    the turn: what gets printed, and the exception that ends it. *)
Fixpoint print_mints (raises : nat -> option exn) (i : nat)
  (mints : list fresh_mint) : list event * option exn :=
  match mints with
  | [] => ([], None)
  | m :: rest =>
      match raises i with
      | Some e => ([], Some e)
      | None =>
          let (printed, r) := print_mints raises (S i) rest in
          (Print_mint m :: printed, r)
      end
  end.

(** The body of [while True]: what it does that can be seen, and the
    exception that leaves it, if one does. *)
Definition pass (env : surroundings) : list event * option exn :=
  match track_fresh_mints (net env) DEFAULT_LOOKBACK with
  | Raise e => ([], Some e)
  | Ok mints =>
      match print_raises env 0 with
      | Some e => ([], Some e)
      | None =>
          let (printed, r) := print_mints (print_raises env) 1 mints in
          match r with
          | Some e => (Print_found (List.length mints) :: printed, Some e)
          | None =>
              match sleep_raises env with
              | Some e =>
                  (Print_found (List.length mints) :: printed, Some e)
              | None =>
                  (Print_found (List.length mints) :: printed ++ [Sleep 300],
                   None)
              end
          end
      end
  end.

(** One turn of [while True]; [env_at k] is what the [k]-th turn finds
    around it.  An exception that leaves the body is caught by nobody and
    ends the process. *)
Definition turn (env_at : nat -> surroundings) (p : process) : process :=
  match state p with
  | Crashed _ => p
  | Running =>
      match pass (env_at (iterations p)) with
      | (seen, None) =>
          {| iterations := S (iterations p);
             output := output p ++ seen;
             state := Running |}
      | (seen, Some e) =>
          {| iterations := iterations p;
             output := output p ++ seen;
             state := Crashed e |}
      end
  end.

Fixpoint turns (env_at : nat -> surroundings) (n : nat) (p : process)
  : process :=
  match n with
  | O => p
  | S n' => turns env_at n' (turn env_at p)
  end.

(** The program after at most [n] turns of its loop. *)
Definition main (env_at : nat -> surroundings) (n : nat) : process :=
  turns env_at n start.

(** *** The words of the specification

    The response of each of the two RPC calls is decoded on the way: the
    current slot is the integer under ["result"] of the first, the accounts
    those the value under ["result"] of the second goes through. *)
Definition decode_slot (r : pyval) : result Z :=
  current_slot <- getitem_key r "result" ;;
  int_operand current_slot.

Definition decode_accounts (resp : pyval) : result (list pyval) :=
  accounts <- getitem_key resp "result" ;;
  iter accounts.

(** The slot field of an account, [data[1]]. *)
Definition slot_field (acct : pyval) : result pyval :=
  account <- getitem_key acct "account" ;;
  data <- getitem_key account "data" ;;
  getitem_index data 1.

(** The slot field of the account is an integer of the window
    [[lo, hi]]. *)
Definition in_window (lo hi : Z) (acct : pyval) : bool :=
  match slot_field acct with
  | Ok slot =>
      match as_int slot with
      | Some s => (lo <=? s) && (s <=? hi)
      | None => false
      end
  | Raise _ => false
  end.

(** The record is within the window when its slot counts as an integer
    between the bounds. *)
Definition within (lo hi : Z) (m : fresh_mint) : Prop :=
  exists s : Z, as_int (firstSeenSlot m) = Some s /\ lo <= s <= hi.

(** An account the loop body can read: it has a pubkey, and its slot field
    is there and is an integer. *)
Definition readable (acct : pyval) : Prop :=
  exists (pubkey slot : pyval) (s : Z),
    getitem_key acct "pubkey" = Ok pubkey
    /\ slot_field acct = Ok slot
    /\ as_int slot = Some s.

(** The record pairs the pubkey of the account with its slot field. *)
Definition record_of (acct : pyval) (m : fresh_mint) : Prop :=
  getitem_key acct "pubkey" = Ok (mint m)
  /\ slot_field acct = Ok (firstSeenSlot m).

(** What a turn that nothing disturbs prints and does, for the mints
    found. *)
Definition pass_events (mints : list fresh_mint) : list event :=
  Print_found (List.length mints) :: map Print_mint mints ++ [Sleep 300].

(** Every call of the turn returns: [track_fresh_mints] with [mints], the
    call of [print] for the heading and the one for each mint, and
    [time.sleep]. *)
Definition clean (env : surroundings) (mints : list fresh_mint) : Prop :=
  track_fresh_mints (net env) DEFAULT_LOOKBACK = Ok mints
  /\ (forall i : nat, (i <= List.length mints)%nat -> print_raises env i = None)
  /\ sleep_raises env = None.

(** The first call of the turn that raises, raises [e], and the turn has
    printed [seen] by then: the call is [track_fresh_mints], or the
    [i]-th call of [print], or [time.sleep]. *)
Definition fails (env : surroundings) (e : exn) (seen : list event) : Prop :=
  (track_fresh_mints (net env) DEFAULT_LOOKBACK = Raise e /\ seen = [])
  \/ (exists (mints : list fresh_mint) (i : nat),
        track_fresh_mints (net env) DEFAULT_LOOKBACK = Ok mints
        /\ (i <= List.length mints)%nat
        /\ (forall j : nat, (j < i)%nat -> print_raises env j = None)
        /\ print_raises env i = Some e
        /\ seen = firstn i (Print_found (List.length mints)
                            :: map Print_mint mints))
  \/ (exists mints : list fresh_mint,
        track_fresh_mints (net env) DEFAULT_LOOKBACK = Ok mints
        /\ (forall i : nat, (i <= List.length mints)%nat ->
              print_raises env i = None)
        /\ sleep_raises env = Some e
        /\ seen = Print_found (List.length mints) :: map Print_mint mints).

(** The output of the turns [0 .. n-1] of the loop when nothing disturbs
    them. *)
Definition pass_output (env_at : nat -> surroundings) (k : nat)
  : list event :=
  match track_fresh_mints (net (env_at k)) DEFAULT_LOOKBACK with
  | Ok mints => pass_events mints
  | Raise _ => []
  end.

Definition passes_output (env_at : nat -> surroundings) (n : nat)
  : list event :=
  flat_map (pass_output env_at) (seq 0 n).

(** An account the loop goes past without an exception: its slot field is
    there and is a number, and it has a pubkey if the slot is in the
    window. *)
Definition passes (lo hi : Z) (acct : pyval) : Prop :=
  exists (slot : pyval) (s : Z),
    slot_field acct = Ok slot
    /\ as_int slot = Some s
    /\ (in_window lo hi acct = true ->
        exists pubkey : pyval, getitem_key acct "pubkey" = Ok pubkey).

(** Reading an account raises [e]: its slot field cannot be read, or the
    slot is no number and comparing it is a [TypeError], or the slot is in
    the window and the pubkey cannot be read. *)
Definition stumbles (lo hi : Z) (acct : pyval) (e : exn) : Prop :=
  slot_field acct = Raise e
  \/ (exists slot : pyval,
        slot_field acct = Ok slot /\ as_int slot = None /\ e = TypeError)
  \/ (in_window lo hi acct = true /\ getitem_key acct "pubkey" = Raise e).

End TrackFreshMints.

(** ** Fabricated responses *)

Module Fixtures.

Import TrackFreshMints.

#[local] Open Scope string_scope.

(** A program account as the RPC service lists it, with [slot] at index 1 of
    its data. *)
Definition account_at (pubkey : string) (slot : Z) : pyval :=
  PyDict [("pubkey", PyStr pubkey);
          ("account", PyDict [("data", PyList [PyInt 0; PyInt slot])])].

(** Current slot 150; accounts whose slots are 10, 100 and 200. *)
Definition client_150 : Client :=
  {| get_slot := Ok (PyDict [("result", PyInt 150)]);
     get_program_accounts := fun _ =>
       Ok (PyDict [("result",
                    PyList [account_at "mintA" 10;
                            account_at "mintB" 100;
                            account_at "mintC" 200])]) |}.

Definition net_150 : network := fun _ => client_150.

(** A service that cannot be reached. *)
Definition client_down : Client :=
  {| get_slot := Raise (RpcError "connection refused");
     get_program_accounts := fun _ => Raise (RpcError "connection refused") |}.

Definition net_down : network := fun _ => client_down.

(** A service whose second account carries its data the way the RPC
    interface encodes it, as a pair of a base64 string and the name of the
    encoding. *)
Definition client_encoded : Client :=
  {| get_slot := Ok (PyDict [("result", PyInt 150)]);
     get_program_accounts := fun _ =>
       Ok (PyDict [("result",
                    PyList [account_at "mintA" 100;
                            PyDict [("pubkey", PyStr "mintB");
                                    ("account",
                                     PyDict [("data",
                                              PyList [PyStr "AQAAAA==";
                                                      PyStr "base64"])])];
                            account_at "mintC" 120])]) |}.

Definition net_encoded : network := fun _ => client_encoded.

(** A service at slot 150 that answers the call for the program accounts
    with [accounts] under ["result"]. *)
Definition client_with (accounts : pyval) : Client :=
  {| get_slot := Ok (PyDict [("result", PyInt 150)]);
     get_program_accounts := fun _ => Ok (PyDict [("result", accounts)]) |}.

Definition net_with (accounts : pyval) : network :=
  fun _ => client_with accounts.

(** Surroundings in which [print] and [time.sleep] do not raise. *)
Definition calm (n : network) : surroundings :=
  {| net := n; print_raises := fun _ => None; sleep_raises := None |}.

(** The standard output is closed after the heading and one mint: the
    third call of [print] raises. *)
Definition closed_pipe : surroundings :=
  {| net := net_150;
     print_raises := fun i => if (i =? 2)%nat then Some OSError else None;
     sleep_raises := None |}.

(** The program is interrupted while it sleeps. *)
Definition interrupted : surroundings :=
  {| net := net_150;
     print_raises := fun _ => None;
     sleep_raises := Some KeyboardInterrupt |}.

(** Two calm turns, then the interrupt. *)
Definition interrupted_at_2 (k : nat) : surroundings :=
  if (k <? 2)%nat then calm net_150 else interrupted.

(** List objects: the numbers 1 to 5 at address 0, a list of two lists at
    address 3, and the integers 2 and 4 at address 4. *)
Definition some_lists : list (list Store.val) :=
  [[Store.Num (Builtins.Int 1); Store.Num (Builtins.Int 2);
    Store.Num (Builtins.Int 3); Store.Num (Builtins.Int 4);
    Store.Num (Builtins.Int 5)];
   [Store.Num (Builtins.Int 1); Store.Num (Builtins.Int 2)];
   [Store.Num (Builtins.Int 3)];
   [Store.Ref 1; Store.Ref 2];
   [Store.Num (Builtins.Int 2); Store.Num (Builtins.Int 4)]]%nat.

Definition at_noon : Store.world :=
  {| Store.clock := 43200%float; Store.heap := some_lists |}.


End Fixtures.

Import Builtins Store Utils.

(** ** Notions the further properties are stated with *)

Module Shapes.

Import TrackFreshMints.

(** A list of chunks as [chunk_list] makes them for a size: every chunk
    but the last has exactly [size] elements, and the last has between one
    and [size]. *)
Fixpoint well_chunked {A : Type} (size : Z) (chunks : list (list A)) : Prop :=
  match chunks with
  | [] => True
  | chunk :: rest =>
      match rest with
      | [] => 1 <= len chunk <= size
      | _ :: _ => len chunk = size /\ well_chunked size rest
      end
  end.


(** The lists that items refer to, when every item is a reference to a
    list object there is. *)
Fixpoint lists_of (w : world) (its : list val) : option (list (list val)) :=
  match its with
  | [] => Some []
  | Ref a :: rest =>
      if (a <? length (heap w))%nat then
        match lists_of w rest with
        | Some ll => Some (obj w a :: ll)
        | None => None
        end
      else None
  | Num _ :: _ => None
  end.

Definition lists_at (w : world) (a : addr) : option (list (list val)) :=
  lists_of w (obj w a).



(** A call that ran gives what the function gives: the same exception, or
    the address of a list object that holds its result. *)
Definition returns_lists (rw : result addr * world)
  (r : result (list (list val))) : Prop :=
  match fst rw, r with
  | Ok out, Ok ll => lists_at (snd rw) out = Some ll
  | Raise e, Raise e' => e = e'
  | _, _ => False
  end.


(** The slot of the record counts as an integer that is at least [lo]. *)
Definition slot_at_least (lo : Z) (m : fresh_mint) : bool :=
  match as_int (firstSeenSlot m) with
  | Some s => lo <=? s
  | None => false
  end.

(** The values that iterate over nothing, and the lists among the
    values. *)
Definition is_empty_value (v : pyval) : bool :=
  match v with
  | PyList [] | PyStr EmptyString | PyDict [] => true
  | _ => false
  end.

Definition is_list (v : pyval) : bool :=
  match v with
  | PyList _ => true
  | _ => false
  end.

Definition is_sleep (ev : event) : bool :=
  match ev with
  | Sleep _ => true
  | _ => false
  end.

Definition is_print_found (ev : event) : bool :=
  match ev with
  | Print_found _ => true
  | _ => false
  end.

End Shapes.

Import Shapes.


Import Fixtures.

(** * Properties of Utils.py *)

Section ListFacts.

Context {A : Type}.

Lemma firstn_plus (a b : nat) (l : list A) :
  firstn (a + b) l = firstn a l ++ firstn b (skipn a l).
Proof.
  revert l; induction a as [|a IH]; intros l; simpl.
  - reflexivity.
  - destruct l as [|x l]; simpl.
    + now rewrite firstn_nil.
    + now rewrite IH.
Qed.

Lemma skipn_plus (a b : nat) (l : list A) :
  skipn (a + b) l = skipn b (skipn a l).
Proof.
  revert l; induction a as [|a IH]; intros l; simpl.
  - reflexivity.
  - destruct l as [|x l]; simpl.
    + now rewrite skipn_nil.
    + apply IH.
Qed.

(** The pieces of width [s] cut from [data] at [j*s], [(j+1)*s], ... put
    side by side are one piece of width [c*s]. *)
Lemma concat_pieces (s : nat) (data : list A) (c j : nat) :
  concat (map (fun k => firstn s (skipn (k * s) data)) (seq j c))
  = firstn (c * s) (skipn (j * s) data).
Proof.
  revert j; induction c as [|c IH]; intros j.
  - reflexivity.
  - cbn [seq map concat]. rewrite IH.
    replace (S j * s)%nat with (j * s + s)%nat by lia.
    rewrite skipn_plus.
    replace (S c * s)%nat with (s + c * s)%nat by lia.
    now rewrite firstn_plus.
Qed.

End ListFacts.

Section Chunking.

Context {A : Type}.

(** A slice between two bounds in order, none negative, is the piece that
    starts at the lower bound and is as wide as the bounds are apart. *)
Lemma slice_piece (data : list A) (lo hi : Z) :
  0 <= lo <= hi ->
  slice data lo hi = firstn (Z.to_nat (hi - lo)) (skipn (Z.to_nat lo) data).
Proof.
  intros Hb. unfold slice, clip, len.
  set (n := length data).
  assert (Hlo : (lo <? 0) = false) by (apply Z.ltb_ge; lia).
  assert (Hhi : (hi <? 0) = false) by (apply Z.ltb_ge; lia).
  rewrite Hlo, Hhi.
  destruct (Z_le_gt_dec (Z.of_nat n) lo) as [Hout|Hin].
  - (* the lower bound is at or beyond the end: both sides are empty *)
    rewrite (Z.min_r lo) by lia.
    rewrite !skipn_all2 by (fold n; lia).
    now rewrite !firstn_nil.
  - rewrite (Z.min_l lo) by lia.
    destruct (Z_le_gt_dec hi (Z.of_nat n)) as [Hle|Hgt].
    + now rewrite (Z.min_l hi) by lia.
    + rewrite (Z.min_r hi) by lia.
      rewrite !firstn_all2; try reflexivity;
        rewrite length_skipn; fold n; lia.
Qed.

Lemma range_len_pos (n size : Z) :
  0 < size -> 0 <= n ->
  0 <= range_len 0 n size
  /\ n <= range_len 0 n size * size
  /\ (range_len 0 n size - 1) * size < n \/ (n = 0 /\ range_len 0 n size = 0).
Proof.
  intros Hs Hn. unfold range_len.
  replace (0 <? size) with true by (symmetry; apply Z.ltb_lt; lia).
  destruct (0 <? n) eqn:E.
  - apply Z.ltb_lt in E. left.
    rewrite Z.sub_0_r.
    pose proof (Z.div_mod (n - 1) size ltac:(lia)) as Hdm.
    pose proof (Z.mod_pos_bound (n - 1) size Hs) as Hm.
    pose proof (Z.div_pos (n - 1) size ltac:(lia) Hs) as Hq.
    nia.
  - apply Z.ltb_ge in E. right. lia.
Qed.

(** For a positive size, [chunk_list] cuts the pieces of that width at the
    multiples of the size below the length. *)
Lemma chunk_list_pieces (data : list A) (size : Z) :
  0 < size ->
  chunk_list data size
  = Ok (map (fun k => firstn (Z.to_nat size) (skipn (k * Z.to_nat size) data))
            (seq 0 (Z.to_nat (range_len 0 (len data) size)))).
Proof.
  intros Hs. unfold chunk_list, range.
  replace (size =? 0) with false by (symmetry; apply Z.eqb_neq; lia).
  cbn [bind]. f_equal. rewrite map_map.
  apply map_ext. intros k.
  rewrite slice_piece by nia.
  f_equal.
  - f_equal. lia.
  - f_equal. rewrite Z.add_0_l, Z2Nat.inj_mul, Nat2Z.id by lia. reflexivity.
Qed.

Lemma chunk_count (data : list A) (size : Z) :
  0 < size ->
  let c := Z.to_nat (range_len 0 (len data) size) in
  let s := Z.to_nat size in
  (length data <= c * s)%nat
  /\ (c = 0%nat -> data = [])
  /\ ((c - 1) * s < length data \/ c = 0)%nat.
Proof.
  intros Hs c s.
  destruct (range_len_pos (len data) size Hs ltac:(unfold len; lia))
    as [(H0 & Hup & Hlow) | (Hn & Hz)]; unfold len in *.
  - assert (Hc : Z.of_nat c = range_len 0 (Z.of_nat (length data)) size)
      by (subst c; unfold len; lia).
    assert (Hs' : Z.of_nat s = size) by (subst s; lia).
    repeat split.
    + nia.
    + intros Hc0. rewrite Hc0 in Hc. simpl in Hc. rewrite <- Hc in Hup.
      destruct data; [reflexivity | simpl in Hup; lia].
    + destruct c as [|c']; [now right | left].
      replace (S c' - 1)%nat with c' by lia. nia.
  - repeat split.
    + lia.
    + intros _. destruct data; [reflexivity | simpl in Hn; lia].
    + right. subst c. unfold len. rewrite Hz. reflexivity.
Qed.

(** Put back together, the chunks are the list. *)
Lemma concat_chunks (data : list A) (size : Z) (chunks : list (list A)) :
  0 < size -> chunk_list data size = Ok chunks -> concat chunks = data.
Proof.
  intros Hs Hc. rewrite chunk_list_pieces in Hc by assumption.
  injection Hc as <-.
  rewrite concat_pieces. simpl skipn.
  apply firstn_all2.
  now destruct (chunk_count data size Hs) as (Hlen & _).
Qed.

End Chunking.

(** ** chunk_list *)

(** C4. [chunk_list([1,2,3,4,5], 2)] is [[[1,2],[3,4],[5]]], and for every
    list and every positive size [chunk_list] returns consecutive chunks of
    the list: the [k]-th chunk is the piece of the list that starts at
    [k * size] and is [size] wide, the chunks put back together are the
    list, every chunk but the last has exactly [size] elements, and no
    chunk is empty or longer than [size]. *)
Theorem chunk_list_consecutive_chunks :
  chunk_list [1; 2; 3; 4; 5] 2 = Ok [[1; 2]; [3; 4]; [5]]
  /\ forall (A : Type) (data : list A) (size : Z),
      0 < size ->
      exists chunks : list (list A),
        chunk_list data size = Ok chunks
        /\ concat chunks = data
        /\ (forall k : nat, (k < length chunks)%nat ->
              nth k chunks []
              = firstn (Z.to_nat size) (skipn (k * Z.to_nat size) data))
        /\ (forall k : nat, (S k < length chunks)%nat ->
              len (nth k chunks []) = size)
        /\ Forall (fun chunk => 1 <= len chunk <= size) chunks.
Proof.
  split; [reflexivity|].
  intros A data size Hs.
  pose proof (chunk_list_pieces data size Hs) as Hch.
  pose proof (chunk_count data size Hs) as Hcnt. cbv zeta in Hcnt.
  set (s := Z.to_nat size) in *.
  set (c := Z.to_nat (range_len 0 (len data) size)) in *.
  set (piece := fun k : nat => firstn s (skipn (k * s) data)) in *.
  destruct Hcnt as (Hup & Hnil & Hlow).
  assert (Hs' : Z.of_nat s = size) by (subst s; lia).
  assert (Hnth : forall k, (k < c)%nat ->
                   nth k (map piece (seq 0 c)) [] = piece k).
  { intros k Hk.
    rewrite (nth_indep _ [] (piece 0%nat)) by (now rewrite length_map, length_seq).
    rewrite map_nth, seq_nth by assumption. reflexivity. }
  assert (Hlen : forall k, length (piece k) = Nat.min s (length data - k * s)).
  { intros k. unfold piece. now rewrite length_firstn, length_skipn. }
  exists (map piece (seq 0 c)). split; [exact Hch|].
  split; [exact (concat_chunks data size _ Hs Hch)|].
  rewrite length_map, length_seq.
  split; [exact Hnth|]. split.
  - intros k Hk. rewrite Hnth by lia. unfold len. rewrite Hlen.
    destruct Hlow as [Hlow|Hc0]; [|lia].
    assert ((S k) * s <= (c - 1) * s)%nat by (apply Nat.mul_le_mono_r; lia).
    lia.
  - apply Forall_forall. intros chunk Hin.
    apply in_map_iff in Hin as (k & <- & Hk).
    apply in_seq in Hk. unfold len. rewrite Hlen.
    destruct Hlow as [Hlow|Hc0]; [|lia].
    assert (k * s <= (c - 1) * s)%nat by (apply Nat.mul_le_mono_r; lia).
    lia.
Qed.

Lemma chunk_list_consecutive_chunks_witness :
  0 < 3
  /\ exists chunks : list (list Z),
       chunk_list [10; 20; 30; 40; 50; 60; 70] 3 = Ok chunks
       /\ concat chunks = [10; 20; 30; 40; 50; 60; 70]
       /\ (forall k : nat, (k < length chunks)%nat ->
             nth k chunks []
             = firstn (Z.to_nat 3)
                 (skipn (k * Z.to_nat 3) [10; 20; 30; 40; 50; 60; 70]))
       /\ (forall k : nat, (S k < length chunks)%nat ->
             len (nth k chunks []) = 3)
       /\ Forall (fun chunk => 1 <= len chunk <= 3) chunks.
Proof.
  split; [lia|].
  apply (proj2 chunk_list_consecutive_chunks Z [10; 20; 30; 40; 50; 60; 70] 3).
  lia.
Defined.

(** C9. For every list and every positive size, chunking and then
    flattening gives the list back. *)
Theorem flatten_chunk_list :
  forall (A : Type) (data : list A) (size : Z),
    0 < size ->
    (chunks <- chunk_list data size ;; Ok (flatten chunks)) = Ok data.
Proof.
  intros A data size Hs.
  destruct (chunk_list data size) as [chunks|e] eqn:E.
  - cbn [bind]. f_equal.
    unfold flatten. rewrite flat_map_concat_map.
    rewrite (map_ext _ (fun l => l)) by (intros l; apply map_id).
    rewrite map_id. exact (concat_chunks data size chunks Hs E).
  - rewrite chunk_list_pieces in E by assumption. discriminate.
Qed.

Lemma flatten_chunk_list_witness :
  0 < 2
  /\ (chunks <- chunk_list [1; 2; 3; 4; 5] 2 ;; Ok (flatten chunks))
     = Ok [1; 2; 3; 4; 5].
Proof.
  split; [lia|]. apply (flatten_chunk_list Z [1; 2; 3; 4; 5] 2). lia.
Defined.

(** C10. For a negative size [chunk_list] returns the empty list, whatever
    the list; for size [0] and a list that is not empty it raises (the
    [ValueError] of a range whose step is zero) and returns nothing. *)
Theorem chunk_list_size_not_positive :
  forall (A : Type) (data : list A),
    (forall size : Z, size < 0 -> chunk_list data size = Ok [])
    /\ (data <> [] -> chunk_list data 0 = Raise ValueError).
Proof.
  intros A data. split.
  - intros size Hneg. unfold chunk_list, range, range_len.
    destruct (Z.eqb_spec size 0) as [->|_]; [lia|].
    destruct (Z.ltb_spec 0 size); [lia|].
    destruct (Z.ltb_spec (len data) 0) as [Hl|_]; [unfold len in Hl; lia|].
    reflexivity.
  - intros _. reflexivity.
Qed.

Lemma chunk_list_size_not_positive_witness :
  -2 < 0 /\ [1; 2; 3] <> []
  /\ chunk_list [1; 2; 3] (-2) = Ok []
  /\ chunk_list [1; 2; 3] 0 = Raise ValueError.
Proof.
  destruct (chunk_list_size_not_positive Z [1; 2; 3]) as [Hneg Hzero].
  split; [lia|]. split; [discriminate|].
  split; [apply Hneg; lia | apply Hzero; discriminate].
Defined.

(** ** flatten *)

(** C5. [flatten([[1,2],[3]])] is [[1,2,3]], and for every list of lists
    [flatten] is the concatenation of the sublists, in order.  One level of
    nesting goes and no more: the elements of the sublists are kept as they
    are, also when they are lists themselves. *)
Theorem flatten_concatenates :
  flatten [[1; 2]; [3]] = [1; 2; 3]
  /\ flatten [[[1]; [2; 3]]; [[4]]] = [[1]; [2; 3]; [4]]
  /\ forall (A : Type) (list_of_lists : list (list A)),
      flatten list_of_lists = concat list_of_lists
      /\ (forall item : A,
            In item (flatten list_of_lists)
            <-> exists sublist, In sublist list_of_lists /\ In item sublist).
Proof.
  split; [reflexivity|]. split; [reflexivity|].
  intros A list_of_lists.
  assert (Hc : flatten list_of_lists = concat list_of_lists).
  { induction list_of_lists as [|sublist rest IH].
    - reflexivity.
    - unfold flatten in *. cbn [flat_map concat].
      now rewrite map_id, IH. }
  split; [exact Hc|].
  intros item. rewrite Hc, in_concat. reflexivity.
Qed.

(** ** mean *)

Section Conversion.











End Conversion.

Section Sums.









End Sums.




(** * Further properties of Utils.py *)

Section MoreChunking.

Context {A : Type}.

Lemma chunk_list_nil (size : Z) :
  size <> 0 -> chunk_list (@nil A) size = Ok [].
Proof.
  intros Hs. unfold chunk_list, range, range_len. cbn [len length Z.of_nat].
  destruct (Z.eqb_spec size 0) as [|_]; [contradiction|].
  now destruct (0 <? size), (size <? 0).
Qed.

(** The number of starting points of the chunks of a list that is not
    empty is one more than that of the list without its first chunk. *)
Lemma range_len_step (data : list A) (size : Z) :
  0 < size -> data <> [] ->
  Z.to_nat (range_len 0 (len data) size)
  = S (Z.to_nat (range_len 0 (len (skipn (Z.to_nat size) data)) size)).
Proof.
  intros Hs Hne. unfold range_len, len.
  replace (0 <? size) with true by (symmetry; apply Z.ltb_lt; lia).
  rewrite length_skipn.
  assert (Hn : (0 < length data)%nat) by (destruct data; [easy | cbn; lia]).
  replace (0 <? Z.of_nat (length data)) with true
    by (symmetry; apply Z.ltb_lt; lia).
  rewrite Z.sub_0_r.
  destruct (Z.ltb_spec 0 (Z.of_nat (length data - Z.to_nat size))) as [Hl|Hl].
  - rewrite Z.sub_0_r.
    replace (Z.of_nat (length data) - 1)
      with (Z.of_nat (length data - Z.to_nat size) - 1 + 1 * size) by lia.
    rewrite Z.div_add by lia.
    pose proof (Z.div_pos (Z.of_nat (length data - Z.to_nat size) - 1) size
                  ltac:(lia) Hs).
    lia.
  - rewrite Z.div_small by lia. reflexivity.
Qed.

(** The chunks of a list that is not empty are its first [size] elements
    and then the chunks of the rest. *)
Lemma chunk_list_unfold (data : list A) (size : Z) :
  0 < size -> data <> [] ->
  chunk_list data size
  = (rest <- chunk_list (skipn (Z.to_nat size) data) size ;;
     Ok (firstn (Z.to_nat size) data :: rest)).
Proof.
  intros Hs Hne.
  rewrite !chunk_list_pieces by assumption. cbn [bind].
  rewrite (range_len_step data size Hs Hne).
  cbn [seq map]. rewrite <- seq_shift, map_map.
  f_equal. f_equal. apply map_ext. intros k.
  cbn [Nat.mul]. now rewrite skipn_plus.
Qed.

Lemma bind_ok (m : result (list (list A))) :
  (x <- m ;; Ok x) = m.
Proof. now destruct m. Qed.

End MoreChunking.

Section ChunkLaws.

Context {A : Type}.

Lemma flatten_is_concat (ll : list (list A)) : flatten ll = concat ll.
Proof.
  unfold flatten. rewrite flat_map_concat_map.
  rewrite (map_ext _ (fun l => l)) by (intros l; apply map_id).
  now rewrite map_id.
Qed.

(** A list no longer than the size is one chunk. *)
Lemma chunk_list_short (data : list A) (size : Z) :
  0 < len data <= size -> chunk_list data size = Ok [data].
Proof.
  intros Hlen. unfold len in Hlen.
  assert (Hne : data <> []) by (intros ->; cbn in Hlen; lia).
  rewrite chunk_list_unfold by (assumption || lia).
  rewrite skipn_all2, firstn_all2 by lia.
  rewrite chunk_list_nil by lia. reflexivity.
Qed.

(** Chunking goes through an append whose left part holds a whole number
    of chunks. *)
Lemma chunk_list_app_whole (size : Z) (m : nat) :
  0 < size ->
  forall a b : list A,
    length a = (m * Z.to_nat size)%nat ->
    chunk_list (a ++ b) size
    = (ca <- chunk_list a size ;; cb <- chunk_list b size ;; Ok (ca ++ cb)).
Proof.
  intros Hs. induction m as [|m IH]; intros a b Hlen.
  - destruct a; [|discriminate]. cbn [app].
    rewrite chunk_list_nil by lia. cbn [bind app]. now rewrite bind_ok.
  - cbn [Nat.mul] in Hlen.
    assert (Hpos : (0 < Z.to_nat size)%nat) by lia.
    assert (Hne : a <> []) by (intros ->; cbn in Hlen; lia).
    assert (Hne' : a ++ b <> []) by (destruct a; [easy | discriminate]).
    rewrite (chunk_list_unfold (a ++ b)), (chunk_list_unfold a)
      by assumption.
    rewrite skipn_app, firstn_app.
    replace (Z.to_nat size - length a)%nat with 0%nat by lia.
    cbn [skipn firstn]. rewrite app_nil_r.
    rewrite IH by (rewrite length_skipn; lia).
    destruct (chunk_list (skipn (Z.to_nat size) a) size) as [ca|];
      cbn [bind]; [|reflexivity].
    now destruct (chunk_list b size).
Qed.

(** What [chunk_list] returns is well chunked. *)
Lemma chunk_list_well_chunked (size : Z) (n : nat) :
  0 < size ->
  forall (data : list A) (chunks : list (list A)),
    (length data <= n)%nat ->
    chunk_list data size = Ok chunks -> well_chunked size chunks.
Proof.
  intros Hs. induction n as [|n IH]; intros data chunks Hn Hc.
  - destruct data; [|cbn in Hn; lia].
    rewrite chunk_list_nil in Hc by lia. now injection Hc as <-.
  - destruct data as [|x data'] eqn:Hd.
    { rewrite chunk_list_nil in Hc by lia. now injection Hc as <-. }
    rewrite <- Hd in *. assert (Hne : data <> []) by (now rewrite Hd).
    assert (Hlen : (0 < length data)%nat) by (rewrite Hd; cbn; lia).
    clear Hd x data'.
    rewrite chunk_list_unfold in Hc by assumption.
    destruct (chunk_list (skipn (Z.to_nat size) data) size) as [rest|] eqn:Hr;
      cbn [bind] in Hc; [|discriminate].
    injection Hc as <-. cbn [well_chunked].
    destruct rest as [|c rest].
    + unfold len. rewrite length_firstn. lia.
    + split.
      * unfold len. rewrite length_firstn.
        destruct (le_lt_dec (length data) (Z.to_nat size)) as [Hle|Hgt];
          [|lia].
        rewrite skipn_all2, chunk_list_nil in Hr by lia. discriminate.
      * apply (IH (skipn (Z.to_nat size) data)); [|exact Hr].
        rewrite length_skipn. lia.
Qed.

End ChunkLaws.

(** X1. [chunk_list] raises on a zero size and on nothing else: every list,
    the empty one too, gives a [ValueError] with size 0, and every other
    size gives a result. *)
Theorem chunk_list_raises_iff :
  forall (A : Type) (data : list A) (size : Z) (e : exn),
    chunk_list data size = Raise e <-> size = 0 /\ e = ValueError.
Proof.
  intros A data size e. unfold chunk_list, range.
  destruct (Z.eqb_spec size 0) as [->|Hs]; cbn [bind].
  - split; [intros [= <-]; auto | intros [_ ->]; reflexivity].
  - split; [discriminate | intros [? _]; contradiction].
Qed.

Lemma chunk_list_raises_iff_witness :
  chunk_list (@nil Z) 0 = Raise ValueError.
Proof.
  apply (proj2 (chunk_list_raises_iff Z [] 0 ValueError)). split; reflexivity.
Defined.

(** X2. For a positive size the number of chunks is the length of the list
    divided by the size, rounded up. *)
Theorem chunk_list_count :
  forall (A : Type) (data : list A) (size : Z),
    0 < size ->
    exists chunks : list (list A),
      chunk_list data size = Ok chunks
      /\ len chunks = (len data + size - 1) / size.
Proof.
  intros A data size Hs.
  rewrite chunk_list_pieces by assumption. eexists. split; [reflexivity|].
  unfold len at 1. rewrite length_map, length_seq.
  unfold range_len, len.
  replace (0 <? size) with true by (symmetry; apply Z.ltb_lt; lia).
  destruct (Z.ltb_spec 0 (Z.of_nat (length data))) as [Hn|Hn].
  - rewrite Z.sub_0_r.
    replace (Z.of_nat (length data) + size - 1)
      with (Z.of_nat (length data) - 1 + 1 * size) by lia.
    rewrite Z.div_add by lia.
    pose proof (Z.div_pos (Z.of_nat (length data) - 1) size ltac:(lia) Hs).
    lia.
  - replace (Z.of_nat (length data)) with 0 by lia.
    rewrite Z.div_small by lia. reflexivity.
Qed.

Lemma chunk_list_count_witness :
  0 < 3
  /\ exists chunks : list (list Z),
       chunk_list [1; 2; 3; 4; 5; 6; 7] 3 = Ok chunks
       /\ len chunks = (len [1; 2; 3; 4; 5; 6; 7] + 3 - 1) / 3.
Proof.
  split; [lia|]. apply (chunk_list_count Z [1; 2; 3; 4; 5; 6; 7] 3). lia.
Defined.

(** X3. For a size that is not zero the result is the empty list exactly when
    the list is empty or the size is negative; a list that is not empty
    and no longer than the size comes back as its one chunk. *)
Theorem chunk_list_empty_and_single :
  forall (A : Type) (data : list A) (size : Z),
    (size <> 0 ->
     (chunk_list data size = Ok [] <-> data = [] \/ size < 0))
    /\ (0 < len data <= size -> chunk_list data size = Ok [data]).
Proof.
  intros A data size. split; [|apply chunk_list_short].
  intros Hs. split.
  - intros Hc. destruct (Z_lt_le_dec size 0) as [Hneg|Hpos]; [now right|].
    left. destruct data as [|x data]; [reflexivity|].
    rewrite chunk_list_unfold in Hc by (lia || discriminate).
    destruct (chunk_list (skipn (Z.to_nat size) (x :: data)) size);
      discriminate.
  - intros [->|Hneg]; [now apply chunk_list_nil|].
    unfold chunk_list, range, range_len.
    destruct (Z.eqb_spec size 0) as [|_]; [contradiction|].
    destruct (Z.ltb_spec 0 size); [lia|].
    destruct (Z.ltb_spec (len data) 0) as [Hl|_]; [unfold len in Hl; lia|].
    reflexivity.
Qed.

Lemma chunk_list_empty_and_single_witness :
  3 <> 0 /\ 0 < len [7; 8] <= 3
  /\ (chunk_list (@nil Z) 3 = Ok [] <-> @nil Z = [] \/ 3 < 0)
  /\ chunk_list [7; 8] 3 = Ok [[7; 8]].
Proof.
  split; [lia|]. split; [cbn; lia|]. split.
  - apply (proj1 (chunk_list_empty_and_single Z [] 3)). lia.
  - apply (proj2 (chunk_list_empty_and_single Z [7; 8] 3)). cbn. lia.
Defined.

(** X4. When the length of [a] is a multiple of a positive size, the chunks of
    [a ++ b] are the chunks of [a] followed by the chunks of [b]. *)
Theorem chunk_list_app :
  forall (A : Type) (a b : list A) (size : Z),
    0 < size ->
    len a mod size = 0 ->
    chunk_list (a ++ b) size
    = (ca <- chunk_list a size ;; cb <- chunk_list b size ;; Ok (ca ++ cb)).
Proof.
  intros A a b size Hs Hmod.
  apply (chunk_list_app_whole size (Z.to_nat (len a / size)) Hs).
  pose proof (Z.div_mod (len a) size ltac:(lia)) as Hdm.
  pose proof (Z.div_pos (len a) size ltac:(unfold len; lia) Hs) as Hq.
  unfold len in *. nia.
Qed.

Lemma chunk_list_app_witness :
  0 < 2 /\ len [1; 2; 3; 4] mod 2 = 0
  /\ chunk_list ([1; 2; 3; 4] ++ [5; 6; 7]) 2
     = (ca <- chunk_list [1; 2; 3; 4] 2 ;;
        cb <- chunk_list [5; 6; 7] 2 ;; Ok (ca ++ cb)).
Proof.
  split; [lia|]. split; [reflexivity|].
  apply (chunk_list_app Z [1; 2; 3; 4] [5; 6; 7] 2); [lia | reflexivity].
Defined.

(** X5. For a positive size, the lists of lists that chunking their own
    flattening gives back are exactly the well chunked ones: every sublist
    but the last has [size] elements, the last between one and [size]. *)
Theorem chunk_list_flatten_iff :
  forall (A : Type) (list_of_lists : list (list A)) (size : Z),
    0 < size ->
    (chunk_list (flatten list_of_lists) size = Ok list_of_lists
     <-> well_chunked size list_of_lists).
Proof.
  intros A ll size Hs. split.
  - apply (chunk_list_well_chunked size (length (flatten ll)) Hs). lia.
  - induction ll as [|c rest IH]; intros Hw.
    + now apply chunk_list_nil, Z.neq_sym, Z.lt_neq.
    + rewrite flatten_is_concat in *.
      change (concat (c :: rest)) with (c ++ concat rest).
      cbn [well_chunked] in Hw. destruct rest as [|c2 rest].
      * cbn [concat]. rewrite app_nil_r. apply chunk_list_short. lia.
      * destruct Hw as [Hc Hw].
        rewrite (chunk_list_app_whole size 1 Hs)
          by (unfold len in Hc; lia).
        rewrite (chunk_list_short c) by lia. cbn [bind].
        rewrite IH by assumption. reflexivity.
Qed.

Lemma chunk_list_flatten_iff_witness :
  0 < 2
  /\ (chunk_list (flatten [[1; 2]; [3; 4]; [5]]) 2 = Ok [[1; 2]; [3; 4]; [5]]
      <-> well_chunked 2 [[1; 2]; [3; 4]; [5]]).
Proof.
  split; [lia|].
  apply (chunk_list_flatten_iff Z [[1; 2]; [3; 4]; [5]] 2). lia.
Defined.

(** X6. The flattened list has as many elements as the sublists have
    together, so that empty sublists leave no trace in it. *)
Theorem flatten_length :
  forall (A : Type) (list_of_lists : list (list A)),
    length (flatten list_of_lists)
    = list_sum (map (@length A) list_of_lists)
    /\ flatten (filter (fun sublist => negb (len sublist =? 0)) list_of_lists)
       = flatten list_of_lists.
Proof.
  intros A ll. rewrite !flatten_is_concat. split.
  - induction ll as [|l ll IH]; cbn [concat map list_sum]; [reflexivity|].
    now rewrite length_app, IH.
  - induction ll as [|l ll IH]; cbn [filter concat]; [reflexivity|].
    destruct l as [|x l]; cbn [len length negb Z.eqb Z.of_nat app].
    + exact IH.
    + cbn [concat]. now rewrite IH.
Qed.

(** X7. [flatten] goes through an append, undoes the wrapping of every element
    in a list of its own, and flattening twice is the same from the inside
    as from the outside. *)
Theorem flatten_composes :
  forall (A : Type),
    (forall a b : list (list A), flatten (a ++ b) = flatten a ++ flatten b)
    /\ (forall data : list A, flatten (map (fun item => [item]) data) = data)
    /\ (forall lll : list (list (list A)),
          flatten (flatten lll) = flatten (map flatten lll)).
Proof.
  intros A.
  assert (Happ : forall a b : list (list A),
             flatten (a ++ b) = flatten a ++ flatten b).
  { intros a b. rewrite !flatten_is_concat. apply concat_app. }
  split; [exact Happ|]. split.
  - intros data. rewrite flatten_is_concat.
    induction data as [|x data IH]; cbn [map concat app]; [reflexivity|].
    now rewrite IH.
  - intros lll. induction lll as [|ll lll IH].
    + reflexivity.
    + rewrite (flatten_is_concat (ll :: lll)). cbn [concat map].
      rewrite Happ, (flatten_is_concat (flatten ll :: _)). cbn [concat].
      rewrite <- (flatten_is_concat lll), IH.
      now rewrite (flatten_is_concat (map flatten lll)).
Qed.

(** * Purity of the helpers *)

Section StoreFacts.









End StoreFacts.

Section RunChunkList.

Variables (t : float) (h : list (list val)) (data : addr) (size : Z).

Hypothesis data_there : (data < length h)%nat.


End RunChunkList.

Section RunFlatten.

Variables (t : float) (h : list (list val)).




End RunFlatten.

Section RunMean.


End RunMean.





(** * Properties of trackFreshMints.py *)

Import TrackFreshMints Fixtures.

(** C2. With account slots 10, 100 and 200, current slot 150 and a lookback
    of 100 slots the window is [[50, 150]], and [track_fresh_mints] keeps
    the account whose slot is 100 and no other. *)
Theorem track_fresh_mints_10_100_200 :
  150 - 100 = 50
  /\ track_fresh_mints net_150 100
     = Ok [{| mint := PyStr "mintB"; firstSeenSlot := PyInt 100 |}].
Proof. split; reflexivity. Qed.

Section Scan.

Variables start_slot current_slot : Z.

(** What one pass of the loop body does when it does not raise. *)
Lemma visit_ok (acct : pyval) (r : option fresh_mint) :
  visit start_slot current_slot acct = Ok r ->
  match r with
  | Some m =>
      in_window start_slot current_slot acct = true
      /\ record_of acct m
      /\ within start_slot current_slot m
  | None => in_window start_slot current_slot acct = false
  end.
Proof.
  unfold visit, in_window, record_of, within, slot_field, int_operand.
  destruct (getitem_key acct "account") as [account|]; cbn [bind];
    [|discriminate].
  destruct (getitem_key account "data") as [data|]; cbn [bind];
    [|discriminate].
  destruct (getitem_index data 1) as [slot|]; cbn [bind]; [|discriminate].
  destruct (as_int slot) as [s|] eqn:Hs; cbn [bind]; [|discriminate].
  destruct (Z.leb_spec start_slot s) as [Hlo|Hlo]; cbn [andb].
  - destruct (Z.leb_spec s current_slot) as [Hhi|Hhi].
    + destruct (getitem_key acct "pubkey") as [pubkey|]; cbn [bind];
        [|discriminate].
      intros [= <-]. cbn. repeat split; eauto.
    + now intros [= <-].
  - now intros [= <-].
Qed.

Lemma scan_ok (accts : list pyval) :
  forall fresh result : list fresh_mint,
    scan start_slot current_slot accts fresh = Ok result ->
    exists added : list fresh_mint,
      result = fresh ++ added
      /\ Forall (within start_slot current_slot) added
      /\ Forall2 record_of
           (filter (in_window start_slot current_slot) accts) added.
Proof.
  induction accts as [|acct rest IH]; intros fresh result; cbn [scan filter].
  - intros [= <-]. exists []. rewrite app_nil_r. auto.
  - destruct (visit start_slot current_slot acct) as [r|] eqn:Hv;
      cbn [bind]; [|discriminate].
    apply visit_ok in Hv. intros Hscan.
    apply IH in Hscan as (added & -> & Hwin & Hrec).
    destruct r as [m|].
    + destruct Hv as (-> & Hm & Hw).
      exists (m :: added). rewrite <- app_assoc. auto.
    + rewrite Hv. eauto.
Qed.

(** The loop raises exactly when the body raises on some account and on
    none before it, and with the exception of the body. *)
Lemma scan_raises (accts : list pyval) (e : exn) :
  forall fresh : list fresh_mint,
    scan start_slot current_slot accts fresh = Raise e
    <-> exists (before : list pyval) (acct : pyval) (after : list pyval),
          accts = before ++ acct :: after
          /\ Forall (fun a => is_ok (visit start_slot current_slot a) = true)
               before
          /\ visit start_slot current_slot acct = Raise e.
Proof.
  induction accts as [|acct rest IH]; intros fresh; cbn [scan].
  - split; [discriminate|].
    intros (before & a & after & Heq & _). now destruct before.
  - destruct (visit start_slot current_slot acct) as [r|e'] eqn:Hv;
      cbn [bind].
    + rewrite IH. split.
      * intros (before & a & after & -> & Hb & Ha).
        exists (acct :: before), a, after. repeat split; auto.
        constructor; [now rewrite Hv | assumption].
      * intros (before & a & after & Heq & Hb & Ha).
        destruct before as [|b before]; cbn in Heq; injection Heq as <- ->.
        -- congruence.
        -- inversion Hb; subst. eauto 6.
    + split.
      * intros [= ->]. exists [], acct, rest. auto.
      * intros (before & a & after & Heq & Hb & Ha).
        destruct before as [|b before]; cbn in Heq; injection Heq as <- ->.
        -- congruence.
        -- inversion Hb as [|? ? Hok]; subst. rewrite Hv in Hok. discriminate.
Qed.

End Scan.

Lemma visit_readable (lo hi : Z) (acct : pyval) :
  readable acct -> is_ok (visit lo hi acct) = true.
Proof.
  intros (pubkey & slot & s & Hpk & Hslot & Hs).
  unfold visit, int_operand. unfold slot_field in Hslot.
  destruct (getitem_key acct "account") as [account|]; cbn [bind] in *;
    [|discriminate].
  destruct (getitem_key account "data") as [data|]; cbn [bind] in *;
    [|discriminate].
  rewrite Hslot. cbn [bind]. rewrite Hs. cbn [bind].
  destruct (lo <=? s); [|reflexivity].
  destruct (s <=? hi); [|reflexivity].
  now rewrite Hpk.
Qed.

(** C1. Whenever [track_fresh_mints] returns, the two RPC calls have
    answered, the first with the current slot and the second with the
    accounts, and the list returned is, in order, one record for each
    account whose slot field [data[1]] lies in
    [[current_slot - lookback_slots, current_slot]] and for no other: the
    record pairs the pubkey of that account with that slot, and the slot of
    every record lies in the window.  It does return when the two
    responses decode and every account is readable. *)
Theorem track_fresh_mints_within_window :
  forall (net : network) (lookback_slots : Z),
    (forall fresh : list fresh_mint,
       track_fresh_mints net lookback_slots = Ok fresh ->
       exists (r resp : pyval) (cur : Z) (accts : list pyval),
         get_slot (net RPC_URL) = Ok r
         /\ decode_slot r = Ok cur
         /\ get_program_accounts (net RPC_URL) PROGRAM_ID = Ok resp
         /\ decode_accounts resp = Ok accts
         /\ Forall (within (cur - lookback_slots) cur) fresh
         /\ Forall2 record_of
              (filter (in_window (cur - lookback_slots) cur) accts) fresh)
    /\ (forall (r resp : pyval) (cur : Z) (accts : list pyval),
          get_slot (net RPC_URL) = Ok r ->
          decode_slot r = Ok cur ->
          get_program_accounts (net RPC_URL) PROGRAM_ID = Ok resp ->
          decode_accounts resp = Ok accts ->
          Forall readable accts ->
          exists fresh : list fresh_mint,
            track_fresh_mints net lookback_slots = Ok fresh).
Proof.
  intros net lookback_slots. unfold track_fresh_mints, decode_slot,
    decode_accounts. split.
  - intros fresh.
    destruct (get_slot (net RPC_URL)) as [r|]; cbn [bind]; [|discriminate].
    destruct (getitem_key r "result") as [current_slot|] eqn:Hcs;
      cbn [bind]; [|discriminate].
    destruct (int_operand current_slot) as [cur|] eqn:Hcur; cbn [bind];
      [|discriminate].
    destruct (get_program_accounts (net RPC_URL) PROGRAM_ID) as [resp|];
      cbn [bind]; [|discriminate].
    destruct (getitem_key resp "result") as [accounts|] eqn:Hacc;
      cbn [bind]; [|discriminate].
    destruct (iter accounts) as [accts|] eqn:Hit; cbn [bind];
      [|discriminate].
    intros Hscan. apply scan_ok in Hscan as (added & -> & Hwin & Hrec).
    exists r, resp, cur, accts. rewrite Hcs, Hacc. cbn [bind app].
    repeat split; assumption.
  - intros r resp cur accts -> Hslot -> Haccts Hread. cbn [bind].
    destruct (getitem_key r "result") as [current_slot|]; cbn [bind] in *;
      [|discriminate].
    rewrite Hslot. cbn [bind].
    destruct (getitem_key resp "result") as [accounts|]; cbn [bind] in *;
      [|discriminate].
    rewrite Haccts. cbn [bind].
    destruct (scan (cur - lookback_slots) cur accts []) as [fresh|e] eqn:Hs;
      [eauto|].
    apply scan_raises in Hs as (before & acct & after & -> & _ & Hraise).
    apply Forall_app in Hread as [_ Hread]. inversion Hread as [|? ? Hr _].
    apply (visit_readable (cur - lookback_slots) cur) in Hr.
    rewrite Hraise in Hr. discriminate.
Qed.

Lemma track_fresh_mints_within_window_witness :
  track_fresh_mints net_150 100
  = Ok [{| mint := PyStr "mintB"; firstSeenSlot := PyInt 100 |}]
  /\ (exists (r resp : pyval) (cur : Z) (accts : list pyval),
        get_slot (net_150 RPC_URL) = Ok r
        /\ decode_slot r = Ok cur
        /\ get_program_accounts (net_150 RPC_URL) PROGRAM_ID = Ok resp
        /\ decode_accounts resp = Ok accts
        /\ Forall (within (cur - 100) cur)
             [{| mint := PyStr "mintB"; firstSeenSlot := PyInt 100 |}]
        /\ Forall2 record_of
             (filter (in_window (cur - 100) cur) accts)
             [{| mint := PyStr "mintB"; firstSeenSlot := PyInt 100 |}])
  /\ Forall readable
       [account_at "mintA" 10; account_at "mintB" 100; account_at "mintC" 200]
  /\ exists fresh : list fresh_mint,
       track_fresh_mints net_150 5000 = Ok fresh.
Proof.
  split; [reflexivity|]. split.
  - apply (proj1 (track_fresh_mints_within_window net_150 100)).
    reflexivity.
  - assert (Hread : Forall readable
                      [account_at "mintA" 10; account_at "mintB" 100;
                       account_at "mintC" 200]).
    { repeat constructor; unfold readable;
        eexists; eexists; eexists; repeat split; reflexivity. }
    split; [exact Hread|].
    apply (proj2 (track_fresh_mints_within_window net_150 5000)
             (PyDict [("result"%string, PyInt 150)])
             (PyDict [("result"%string,
                       PyList [account_at "mintA" 10; account_at "mintB" 100;
                               account_at "mintC" 200])])
             150
             [account_at "mintA" 10; account_at "mintB" 100;
              account_at "mintC" 200]);
      solve [reflexivity | exact Hread].
Defined.

(** Splits a disjunction of the steps that may have raised into its cases
    and names what each case knows. *)
Ltac which_step :=
  repeat match goal with
    | H : _ \/ _ |- _ => destruct H as [H|H]
    | H : exists _, _ |- _ => destruct H as [? H]
    | H : _ /\ _ |- _ => destruct H as [? H]
    | H : Ok _ = Ok _ |- _ => injection H as H; subst
    end.

Section LoopBody.

Variables lo hi : Z.

(** The body of the loop raises exactly when reading the account
    stumbles, and with the exception of the read that failed; it goes on
    exactly when the account passes. *)
Lemma visit_cases (acct : pyval) :
  (forall e : exn, visit lo hi acct = Raise e <-> stumbles lo hi acct e)
  /\ (is_ok (visit lo hi acct) = true <-> passes lo hi acct).
Proof.
  unfold visit, stumbles, passes, in_window, slot_field, int_operand.
  destruct (getitem_key acct "account") as [account|e0]; cbn [bind is_ok].
  2:{ split; [intros e; split|split]; try discriminate;
        try (intros _; reflexivity).
      - intros [= <-]. now left.
      - intros H; which_step; congruence.
      - intros (? & ? & H & _). discriminate. }
  destruct (getitem_key account "data") as [data|e0]; cbn [bind is_ok].
  2:{ split; [intros e; split|split]; try discriminate;
        try (intros _; reflexivity).
      - intros [= <-]. now left.
      - intros H; which_step; congruence.
      - intros (? & ? & H & _). discriminate. }
  destruct (getitem_index data 1) as [slot|e0]; cbn [bind is_ok].
  2:{ split; [intros e; split|split]; try discriminate;
        try (intros _; reflexivity).
      - intros [= <-]. now left.
      - intros H; which_step; congruence.
      - intros (? & ? & H & _). discriminate. }
  destruct (as_int slot) as [s|] eqn:Hs; cbn [bind is_ok].
  2:{ split; [intros e; split|split]; try discriminate;
        try (intros _; reflexivity).
      - intros [= <-]. right; left. eauto.
      - intros H; which_step; congruence.
      - intros (? & ? & [= <-] & ? & _). congruence. }
  destruct (Z.leb_spec lo s) as [Hlo|Hlo]; cbn [andb is_ok].
  2:{ split; [intros e; split|split]; try discriminate;
        try (intros _; reflexivity).
      - intros H; which_step; congruence.
      - intros _. exists slot, s. repeat split; [assumption | discriminate]. }
  destruct (Z.leb_spec s hi) as [Hhi|Hhi]; cbn [is_ok].
  2:{ split; [intros e; split|split]; try discriminate;
        try (intros _; reflexivity).
      - intros H; which_step; congruence.
      - intros _. exists slot, s. repeat split; [assumption | discriminate]. }
  destruct (getitem_key acct "pubkey") as [pubkey|e0]; cbn [bind is_ok].
  - split; [intros e; split|split]; try discriminate;
        try (intros _; reflexivity).
    + intros H; which_step; congruence.
    + intros _. exists slot, s. repeat split; eauto.
  - split; [intros e; split|split]; try discriminate;
        try (intros _; reflexivity).
    + intros [= <-]. right; right. auto.
    + intros H; which_step; congruence.
    + intros (? & ? & _ & _ & Hpk).
      destruct (Hpk eq_refl) as [? ?]. discriminate.
Qed.

(** The loop raises [e] exactly when some account stumbles with [e] and
    every account before it passes. *)
Lemma scan_stumbles (accts : list pyval) (e : exn) :
  scan lo hi accts [] = Raise e
  <-> exists (before : list pyval) (acct : pyval) (after : list pyval),
        accts = before ++ acct :: after
        /\ Forall (passes lo hi) before
        /\ stumbles lo hi acct e.
Proof.
  rewrite scan_raises. split.
  - intros (before & acct & after & -> & Hb & Hv).
    exists before, acct, after. repeat split.
    + eapply Forall_impl; [|exact Hb]. intros a. apply visit_cases.
    + now apply visit_cases.
  - intros (before & acct & after & -> & Hb & Hv).
    exists before, acct, after. repeat split.
    + eapply Forall_impl; [|exact Hb]. intros a. apply visit_cases.
    + now apply visit_cases.
Qed.

End LoopBody.

(** C6. [track_fresh_mints] raises an exception [e] exactly when one of its
    steps raises [e]: the call for the current slot, the decoding of its
    response, the call for the program accounts, the decoding of its
    response, or the decoding of an account (its slot field [data[1]]
    cannot be read, or the slot is no number and cannot be compared, or the
    slot is in the window and the pubkey cannot be read) when every account
    before it was decoded.  The exception that leaves the function is that
    of the failing step, unchanged: none is caught, in the loop or outside
    it, and when no step raises the function returns. *)
Theorem track_fresh_mints_propagates :
  forall (net : network) (lookback_slots : Z) (e : exn),
    track_fresh_mints net lookback_slots = Raise e
    <-> (get_slot (net RPC_URL) = Raise e
         \/ (exists r : pyval,
               get_slot (net RPC_URL) = Ok r /\ decode_slot r = Raise e)
         \/ (exists (r : pyval) (cur : Z),
               get_slot (net RPC_URL) = Ok r
               /\ decode_slot r = Ok cur
               /\ get_program_accounts (net RPC_URL) PROGRAM_ID = Raise e)
         \/ (exists (r : pyval) (cur : Z) (resp : pyval),
               get_slot (net RPC_URL) = Ok r
               /\ decode_slot r = Ok cur
               /\ get_program_accounts (net RPC_URL) PROGRAM_ID = Ok resp
               /\ decode_accounts resp = Raise e)
         \/ (exists (r : pyval) (cur : Z) (resp : pyval)
                    (before : list pyval) (acct : pyval) (after : list pyval),
               get_slot (net RPC_URL) = Ok r
               /\ decode_slot r = Ok cur
               /\ get_program_accounts (net RPC_URL) PROGRAM_ID = Ok resp
               /\ decode_accounts resp = Ok (before ++ acct :: after)
               /\ Forall (passes (cur - lookback_slots) cur) before
               /\ stumbles (cur - lookback_slots) cur acct e)).
Proof.
  intros net lookback_slots e.
  assert (Hshape : track_fresh_mints net lookback_slots
            = (r <- get_slot (net RPC_URL) ;;
               cur <- decode_slot r ;;
               resp <- get_program_accounts (net RPC_URL) PROGRAM_ID ;;
               accts <- decode_accounts resp ;;
               scan (cur - lookback_slots) cur accts [])).
  { unfold track_fresh_mints, decode_slot, decode_accounts.
    destruct (get_slot (net RPC_URL)) as [r|]; cbn [bind]; [|reflexivity].
    destruct (getitem_key r "result") as [v|]; cbn [bind]; [|reflexivity].
    destruct (int_operand v) as [cur|]; cbn [bind]; [|reflexivity].
    destruct (get_program_accounts (net RPC_URL) PROGRAM_ID) as [resp|];
      cbn [bind]; [|reflexivity].
    now destruct (getitem_key resp "result") as [a|]. }
  rewrite Hshape. clear Hshape.
  destruct (get_slot (net RPC_URL)) as [r|e1]; cbn [bind].
  2:{ split; [intros [= ->]; now left | intros H; which_step; congruence]. }
  destruct (decode_slot r) as [cur|e2] eqn:Hslot; cbn [bind].
  2:{ split; [intros [= ->]; right; left; exists r; auto
             | intros H; which_step; congruence]. }
  destruct (get_program_accounts (net RPC_URL) PROGRAM_ID) as [resp|e3];
    cbn [bind].
  2:{ split; [intros [= ->]; right; right; left; exists r, cur; auto
             | intros H; which_step; congruence]. }
  destruct (decode_accounts resp) as [accts|e4] eqn:Haccts; cbn [bind].
  2:{ split; [intros [= ->]; do 3 right; left; exists r, cur, resp; auto
             | intros H; which_step; congruence]. }
  rewrite scan_stumbles. split.
  - intros (before & acct & after & -> & Hb & Hv).
    do 4 right. exists r, cur, resp, before, acct, after. auto 7.
  - intros [H|[(? & [= <-] & H)|[(? & ? & _ & _ & H)
             |[(? & ? & ? & _ & _ & [= <-] & H)
             |(r' & cur' & resp' & before & acct & after
               & [= <-] & Hc & [= <-] & Ha & Hb & Hv)]]]];
      try congruence.
    assert (cur' = cur) as -> by congruence.
    assert (accts = before ++ acct :: after) as -> by congruence.
    eauto 6.
Qed.

Lemma track_fresh_mints_propagates_witness :
  get_slot (net_down RPC_URL) = Raise (RpcError "connection refused")
  /\ track_fresh_mints net_down 100 = Raise (RpcError "connection refused")
  /\ stumbles (150 - 100) 150
       (PyDict [("pubkey"%string, PyStr "mintB");
                ("account"%string,
                 PyDict [("data"%string,
                          PyList [PyStr "AQAAAA=="; PyStr "base64"])])])
       TypeError
  /\ track_fresh_mints net_encoded 100 = Raise TypeError.
Proof.
  assert (Hst : stumbles (150 - 100) 150
                  (PyDict [("pubkey"%string, PyStr "mintB");
                           ("account"%string,
                            PyDict [("data"%string,
                                     PyList [PyStr "AQAAAA==";
                                             PyStr "base64"])])])
                  TypeError).
  { right; left. exists (PyStr "base64"). repeat split; reflexivity. }
  split; [reflexivity|]. split.
  { apply (proj2 (track_fresh_mints_propagates net_down 100
                    (RpcError "connection refused"))).
    left. reflexivity. }
  split; [exact Hst|].
  apply (proj2 (track_fresh_mints_propagates net_encoded 100 TypeError)).
  do 4 right.
  exists (PyDict [("result"%string, PyInt 150)]), 150,
    (PyDict [("result"%string,
              PyList [account_at "mintA" 100;
                      PyDict [("pubkey"%string, PyStr "mintB");
                              ("account"%string,
                               PyDict [("data"%string,
                                        PyList [PyStr "AQAAAA==";
                                                PyStr "base64"])])];
                      account_at "mintC" 120])]),
    [account_at "mintA" 100],
    (PyDict [("pubkey"%string, PyStr "mintB");
             ("account"%string,
              PyDict [("data"%string,
                       PyList [PyStr "AQAAAA=="; PyStr "base64"])])]),
    [account_at "mintC" 120].
  split; [reflexivity|]. split; [reflexivity|]. split; [reflexivity|].
  split; [reflexivity|]. split; [|exact Hst].
  constructor; [|constructor].
  exists (PyInt 100), 100. split; [reflexivity|]. split; [reflexivity|].
  intros _. exists (PyStr "mintA"). reflexivity.
Defined.

(** ** The loop of the program *)

Section Pass.

Variable raises : nat -> option exn.

(** The calls of [print] for the mints either all return, or one of them
    is the first to raise, after the mints before it were printed. *)
Lemma print_mints_cases (mints : list fresh_mint) :
  forall i : nat,
    ((forall j : nat, (i <= j < i + length mints)%nat -> raises j = None)
     /\ print_mints raises i mints = (map Print_mint mints, None))
    \/ (exists (k : nat) (e : exn),
          (k < length mints)%nat
          /\ (forall j : nat, (i <= j < i + k)%nat -> raises j = None)
          /\ raises (i + k)%nat = Some e
          /\ print_mints raises i mints
             = (map Print_mint (firstn k mints), Some e)).
Proof.
  induction mints as [|m mints IH]; intros i; cbn [print_mints length].
  - left. split; [intros j Hj; lia | reflexivity].
  - destruct (raises i) as [e|] eqn:Hi.
    + right. exists 0%nat, e. rewrite Nat.add_0_r.
      repeat split; [lia | intros j Hj; lia | exact Hi].
    + destruct (IH (S i)) as [[Hall ->]|(k & e & Hk & Hbefore & He & ->)].
      * left. split; [|reflexivity].
        intros j Hj. destruct (Nat.eq_dec j i) as [->|]; [exact Hi|].
        apply Hall. lia.
      * right. exists (S k), e. repeat split.
        -- lia.
        -- intros j Hj. destruct (Nat.eq_dec j i) as [->|]; [exact Hi|].
           apply Hbefore. lia.
        -- now rewrite Nat.add_succ_r.
Qed.

End Pass.

Section Turn.

(** A turn in which every call returns prints the heading and the mints
    and sleeps. *)
Lemma pass_clean (env : surroundings) (mints : list fresh_mint) :
  clean env mints -> pass env = (pass_events mints, None).
Proof.
  intros (Htrack & Hprint & Hsleep). unfold pass, pass_events.
  rewrite Htrack, (Hprint 0%nat ltac:(lia)).
  destruct (print_mints_cases (print_raises env) mints 1)
    as [[_ ->]|(k & e & Hk & _ & He & _)].
  - now rewrite Hsleep.
  - rewrite Hprint in He by lia. discriminate.
Qed.

(** A turn one of whose calls raises ends with the exception of the first
    that does, having printed what was printed before. *)
Lemma pass_fails (env : surroundings) (e : exn) (seen : list event) :
  fails env e seen -> pass env = (seen, Some e).
Proof.
  unfold fails, pass.
  intros [[-> ->]|[(mints & i & -> & Hi & Hbefore & He & ->)
                  |(mints & -> & Hprint & Hsleep & ->)]].
  - reflexivity.
  - destruct i as [|i]; [now rewrite He|].
    rewrite (Hbefore 0%nat ltac:(lia)).
    destruct (print_mints_cases (print_raises env) mints 1)
      as [[Hall _]|(k & e' & Hk & Hk' & He' & ->)].
    + rewrite Hall in He by (cbn in Hi; lia). discriminate.
    + cbn [Nat.add] in He'.
      assert (k = i) as ->.
      { destruct (Nat.lt_trichotomy k i) as [Hlt|[->|Hgt]];
          [|reflexivity|].
        - rewrite Hbefore in He' by lia. discriminate.
        - rewrite (Hk' (S i)) in He by lia. discriminate. }
      assert (e' = e) as -> by congruence.
      cbn [firstn]. now rewrite firstn_map.
  - rewrite (Hprint 0%nat ltac:(lia)).
    destruct (print_mints_cases (print_raises env) mints 1)
      as [[_ ->]|(k & e' & Hk & _ & He' & _)].
    + now rewrite Hsleep.
    + rewrite Hprint in He' by lia. discriminate.
Qed.

(** What a turn did tells which of the two it was. *)
Lemma pass_inv (env : surroundings) :
  (exists mints : list fresh_mint,
     clean env mints /\ pass env = (pass_events mints, None))
  \/ (exists (e : exn) (seen : list event),
        fails env e seen /\ pass env = (seen, Some e)).
Proof.
  destruct (track_fresh_mints (net env) DEFAULT_LOOKBACK) as [mints|e]
    eqn:Htrack.
  2:{ right. exists e, []. split; [left; auto|]. unfold pass.
      now rewrite Htrack. }
  destruct (print_raises env 0) as [e|] eqn:H0.
  { right. exists e, [].
    assert (Hf : fails env e []).
    { right; left. exists mints, 0%nat.
      repeat split; [assumption | lia | intros j Hj; lia | assumption]. }
    split; [exact Hf | now apply pass_fails]. }
  destruct (print_mints_cases (print_raises env) mints 1)
    as [[Hall _]|(k & e & Hk & Hbefore & He & _)].
  - assert (Hprint : forall i : nat,
               (i <= length mints)%nat -> print_raises env i = None).
    { intros [|i] Hi; [exact H0 | apply Hall; lia]. }
    destruct (sleep_raises env) as [e|] eqn:Hsleep.
    + right. exists e, (Print_found (length mints) :: map Print_mint mints).
      assert (Hf : fails env e
                     (Print_found (length mints) :: map Print_mint mints)).
      { right; right. exists mints. auto. }
      split; [exact Hf | now apply pass_fails].
    + left. exists mints.
      assert (Hc : clean env mints) by (repeat split; assumption).
      split; [exact Hc | now apply pass_clean].
  - right.
    exists e, (firstn (S k) (Print_found (length mints)
                             :: map Print_mint mints)).
    assert (Hf : fails env e
                   (firstn (S k) (Print_found (length mints)
                                  :: map Print_mint mints))).
    { right; left. exists mints, (S k).
      split; [assumption|]. split; [lia|]. split; [|split; [exact He|]].
      - intros [|j] Hj; [exact H0 | apply Hbefore; lia].
      - reflexivity. }
    split; [exact Hf | now apply pass_fails].
Qed.

End Turn.

Section Loop.

Variable env_at : nat -> surroundings.

Lemma turns_crashed (n : nat) (p : process) (e : exn) :
  state p = Crashed e -> turns env_at n p = p.
Proof.
  intros Hc. induction n as [|n IH]; cbn [turns]; [reflexivity|].
  unfold turn. now rewrite Hc.
Qed.

Lemma turns_add (a b : nat) (p : process) :
  turns env_at (a + b) p = turns env_at b (turns env_at a p).
Proof.
  revert p. induction a as [|a IH]; intros p; cbn [turns Nat.add];
    [reflexivity | apply IH].
Qed.

Lemma turns_succ (n : nat) (p : process) :
  turns env_at (S n) p = turn env_at (turns env_at n p).
Proof.
  replace (S n) with (n + 1)%nat by lia. now rewrite turns_add.
Qed.

(** While every call returns, each turn adds its output and the program
    goes on. *)
Lemma turns_running (n : nat) :
  forall p : process,
    state p = Running ->
    (forall k : nat, (iterations p <= k < iterations p + n)%nat ->
       exists mints : list fresh_mint, clean (env_at k) mints) ->
    turns env_at n p
    = {| iterations := iterations p + n;
         output := output p
                   ++ flat_map (pass_output env_at) (seq (iterations p) n);
         state := Running |}.
Proof.
  induction n as [|n IH]; intros [i out st] Hrun Hok; cbn in *.
  - subst st. now rewrite Nat.add_0_r, app_nil_r.
  - subst st. unfold turn. cbn [state iterations output].
    destruct (Hok i ltac:(lia)) as [mints Hclean].
    rewrite (pass_clean _ _ Hclean).
    unfold pass_output at 1. rewrite (proj1 Hclean).
    rewrite IH; cbn [state iterations output].
    + f_equal; [lia | now rewrite <- app_assoc].
    + reflexivity.
    + intros k Hk. apply Hok. lia.
Qed.

End Loop.

(** C7, as the specification states it, fails: when the RPC service cannot
    be reached the first call of [track_fresh_mints] raises, nothing
    catches the exception, and the program has ended before it printed or
    slept once. *)
Lemma main_ends_when_the_service_is_down :
  ~ (forall (env_at : nat -> surroundings) (n : nat),
       state (main env_at n) = Running /\ iterations (main env_at n) = n).
Proof.
  intros H. destruct (H (fun _ => calm net_down) 1%nat) as [Hrun _].
  vm_compute in Hrun. discriminate Hrun.
Qed.

(** C7, amended.  The loop has no exit of its own.  As long as every call
    of a turn returns ([track_fresh_mints], each [print], [time.sleep]),
    the program is still running after any number of turns, and each turn
    has printed the number of mints found, then each mint, and then slept
    300 seconds before the next.  The program ends only at a turn one of
    whose calls raises: the exception is not caught, and the turn has done
    what it did before that call and nothing after it. *)
Theorem main_has_no_exit_of_its_own :
  forall (env_at : nat -> surroundings) (n : nat),
    ((forall k : nat, (k < n)%nat ->
        exists mints : list fresh_mint, clean (env_at k) mints) ->
     main env_at n
     = {| iterations := n;
          output := passes_output env_at n;
          state := Running |}
     /\ forall k : nat, (k < n)%nat ->
          exists mints : list fresh_mint,
            track_fresh_mints (net (env_at k)) DEFAULT_LOOKBACK = Ok mints
            /\ pass_output env_at k
               = Print_found (length mints) :: map Print_mint mints
                 ++ [Sleep 300])
    /\ (forall (k : nat) (e : exn) (seen : list event),
          (k < n)%nat ->
          (forall j : nat, (j < k)%nat ->
             exists mints : list fresh_mint, clean (env_at j) mints) ->
          fails (env_at k) e seen ->
          main env_at n
          = {| iterations := k;
               output := passes_output env_at k ++ seen;
               state := Crashed e |}).
Proof.
  intros env_at n. split.
  - intros Hok. split.
    + unfold main. rewrite turns_running; [reflexivity | reflexivity |].
      intros k Hk. apply Hok. cbn in Hk. lia.
    + intros k Hk. destruct (Hok k Hk) as [mints Hclean].
      exists mints. split; [exact (proj1 Hclean)|].
      unfold pass_output. now rewrite (proj1 Hclean).
  - intros k e seen Hk Hok Hfails.
    replace n with (k + S (n - S k))%nat by lia.
    unfold main.
    rewrite turns_add, (turns_running env_at k start); [|reflexivity|].
    + cbn [turns]. unfold turn at 1. cbn [state iterations output start].
      rewrite Nat.add_0_l, (pass_fails _ _ _ Hfails).
      now rewrite (turns_crashed env_at _ _ e).
    + intros j Hj. apply Hok. cbn in Hj. lia.
Qed.

Lemma main_has_no_exit_of_its_own_witness :
  (forall k : nat, (k < 2)%nat ->
     exists mints : list fresh_mint, clean (calm net_150) mints)
  /\ main (fun _ => calm net_150) 2
     = {| iterations := 2;
          output := passes_output (fun _ => calm net_150) 2;
          state := Running |}
  /\ (2 < 5)%nat
  /\ fails (interrupted_at_2 2) KeyboardInterrupt
       [Print_found 2;
        Print_mint {| mint := PyStr "mintA"; firstSeenSlot := PyInt 10 |};
        Print_mint {| mint := PyStr "mintB"; firstSeenSlot := PyInt 100 |}]
  /\ main interrupted_at_2 5
     = {| iterations := 2;
          output :=
            passes_output interrupted_at_2 2
            ++ [Print_found 2;
                Print_mint
                  {| mint := PyStr "mintA"; firstSeenSlot := PyInt 10 |};
                Print_mint
                  {| mint := PyStr "mintB"; firstSeenSlot := PyInt 100 |}];
          state := Crashed KeyboardInterrupt |}.
Proof.
  assert (Hcalm : exists mints : list fresh_mint, clean (calm net_150) mints).
  { eexists. split; [reflexivity|]. split; [intros; reflexivity|reflexivity]. }
  assert (Hfails :
            fails (interrupted_at_2 2) KeyboardInterrupt
              [Print_found 2;
               Print_mint
                 {| mint := PyStr "mintA"; firstSeenSlot := PyInt 10 |};
               Print_mint
                 {| mint := PyStr "mintB"; firstSeenSlot := PyInt 100 |}]).
  { right; right. eexists. split; [reflexivity|].
    split; [intros; reflexivity|]. split; reflexivity. }
  split; [intros; exact Hcalm|]. split.
  - apply (proj1 (main_has_no_exit_of_its_own (fun _ => calm net_150) 2)).
    intros; exact Hcalm.
  - split; [lia|]. split; [exact Hfails|].
    apply (proj2 (main_has_no_exit_of_its_own interrupted_at_2 5) 2%nat
             KeyboardInterrupt); [lia | | exact Hfails].
    intros j Hj. unfold interrupted_at_2.
    destruct (Nat.ltb_spec j 2); [exact Hcalm | lia].
Defined.

(** ** Some runs *)

Example chunk_list_exact : chunk_list [1; 2; 3; 4] 2 = Ok [[1; 2]; [3; 4]].
Proof. reflexivity. Qed.

Example chunk_list_wide : chunk_list [1; 2; 3] 10 = Ok [[1; 2; 3]].
Proof. reflexivity. Qed.

Example chunk_list_empty_zero : chunk_list (@nil Z) 0 = Raise ValueError.
Proof. reflexivity. Qed.

Example slice_from_the_end : slice [1; 2; 3; 4; 5] (-2) 5 = [4; 5].
Proof. reflexivity. Qed.

Example range_down : range 5 0 (-2) = Ok [5; 3; 1].
Proof. reflexivity. Qed.

Example mean_of_three :
  mean sum_plain [Float 1.5%float; Int 2; Float 2.5%float] = Ok 2%float.
Proof. reflexivity. Qed.

(** The integers are added exactly and the sum is divided once: the float
    nearest to [(2 ** 53 + 2) / 3]. *)
Example mean_of_large_integers :
  mean sum_plain [Int (2 ^ 53); Int 1; Int 1]
  = Ok 3002399751580331.5%float.
Proof. vm_compute. reflexivity. Qed.

Example mean_of_a_list_in_a_list :
  fst (Run.mean sum_plain 3%nat at_noon) = Raise TypeError.
Proof. reflexivity. Qed.

Example chunk_list_of_an_object :
  returns_lists (Run.chunk_list 0%nat 2 at_noon)
    (Ok [[Num (Int 1); Num (Int 2)]; [Num (Int 3); Num (Int 4)];
         [Num (Int 5)]]).
Proof. reflexivity. Qed.

Example now_ms_at_half_past :
  now_ms {| clock := 1700000000.5%float; heap := [] |} = Ok 1700000000500.
Proof. vm_compute. reflexivity. Qed.

(** With the default lookback of 5000 slots the window is [[-4850, 150]]:
    the accounts at slots 10 and 100 are fresh, the one at slot 200 is
    not. *)
Example track_fresh_mints_default :
  track_fresh_mints net_150 DEFAULT_LOOKBACK
  = Ok [{| mint := PyStr "mintA"; firstSeenSlot := PyInt 10 |};
        {| mint := PyStr "mintB"; firstSeenSlot := PyInt 100 |}].
Proof. reflexivity. Qed.

(** An account whose data is a base64 string and the name of its encoding
    has a string at index 1; comparing it with the start of the window is a
    [TypeError], and the account found before it is lost with the call. *)
Example track_fresh_mints_encoded :
  track_fresh_mints net_encoded 100 = Raise TypeError.
Proof. reflexivity. Qed.

Example main_one_turn :
  output (main (fun _ => calm net_150) 1)
  = [Print_found 2;
     Print_mint {| mint := PyStr "mintA"; firstSeenSlot := PyInt 10 |};
     Print_mint {| mint := PyStr "mintB"; firstSeenSlot := PyInt 100 |};
     Sleep 300].
Proof. reflexivity. Qed.

(** The standard output is closed while the mints are printed: the heading
    and one mint are out, and the program has ended without a pass. *)
Example main_closed_pipe :
  main (fun _ => closed_pipe) 3
  = {| iterations := 0;
       output :=
         [Print_found 2;
          Print_mint {| mint := PyStr "mintA"; firstSeenSlot := PyInt 10 |}];
       state := Crashed OSError |}.
Proof. reflexivity. Qed.

(** * Further properties of trackFreshMints.py *)

Section Steps.

(** The call is the chain of its steps. *)
Lemma track_fresh_mints_steps (net : network) (lookback_slots : Z) :
  track_fresh_mints net lookback_slots
  = (r <- get_slot (net RPC_URL) ;;
     cur <- decode_slot r ;;
     resp <- get_program_accounts (net RPC_URL) PROGRAM_ID ;;
     accts <- decode_accounts resp ;;
     scan (cur - lookback_slots) cur accts []).
Proof.
  unfold track_fresh_mints, decode_slot, decode_accounts.
  destruct (get_slot (net RPC_URL)) as [r|]; cbn [bind]; [|reflexivity].
  destruct (getitem_key r "result") as [v|]; cbn [bind]; [|reflexivity].
  destruct (int_operand v) as [cur|]; cbn [bind]; [|reflexivity].
  destruct (get_program_accounts (net RPC_URL) PROGRAM_ID) as [resp|];
    cbn [bind]; [|reflexivity].
  now destruct (getitem_key resp "result") as [a|].
Qed.

(** The records found so far are kept in front of those found later. *)
Lemma scan_from_nil (lo hi : Z) (accts : list pyval) :
  forall fresh : list fresh_mint,
    scan lo hi accts fresh
    = (added <- scan lo hi accts [] ;; Ok (fresh ++ added)).
Proof.
  induction accts as [|acct rest IH]; intros fresh; cbn [scan].
  - cbn [bind]. now rewrite app_nil_r.
  - destruct (visit lo hi acct) as [[m|]|]; cbn [bind]; [| |reflexivity].
    + rewrite (IH (fresh ++ [m])), (IH ([] ++ [m])).
      destruct (scan lo hi rest []) as [added|]; cbn [bind]; [|reflexivity].
      now rewrite <- app_assoc.
    + now rewrite (IH fresh), (IH []).
Qed.

(** Narrowing the window from below keeps, of the record of an account,
    the one whose slot is still in the window. *)
Lemma visit_narrow (lo1 lo2 hi : Z) (acct : pyval)
  (o1 o2 : option fresh_mint) :
  lo2 <= lo1 ->
  visit lo1 hi acct = Ok o1 ->
  visit lo2 hi acct = Ok o2 ->
  o1 = match o2 with
       | Some m => if slot_at_least lo1 m then Some m else None
       | None => None
       end.
Proof.
  intros Hlo. unfold visit, int_operand, slot_at_least.
  destruct (getitem_key acct "account") as [account|]; cbn [bind];
    [|discriminate].
  destruct (getitem_key account "data") as [data|]; cbn [bind];
    [|discriminate].
  destruct (getitem_index data 1) as [slot|]; cbn [bind]; [|discriminate].
  destruct (as_int slot) as [s|] eqn:Hs; cbn [bind]; [|discriminate].
  destruct (Z.leb_spec lo1 s) as [H1|H1], (Z.leb_spec lo2 s) as [H2|H2];
    try lia;
    destruct (s <=? hi);
    destruct (getitem_key acct "pubkey") as [pubkey|]; cbn [bind];
    try discriminate;
    intros [= <-] [= <-]; cbn [firstSeenSlot]; rewrite ?Hs;
    try reflexivity.
  - destruct (Z.leb_spec lo1 s); [reflexivity | lia].
  - destruct (Z.leb_spec lo1 s); [lia | reflexivity].
Qed.

Lemma scan_narrow (lo1 lo2 hi : Z) (accts : list pyval) :
  lo2 <= lo1 ->
  forall fresh1 fresh2 : list fresh_mint,
    scan lo1 hi accts [] = Ok fresh1 ->
    scan lo2 hi accts [] = Ok fresh2 ->
    fresh1 = filter (slot_at_least lo1) fresh2.
Proof.
  intros Hlo. induction accts as [|acct rest IH]; intros fresh1 fresh2;
    cbn [scan].
  - now intros [= <-] [= <-].
  - destruct (visit lo1 hi acct) as [o1|] eqn:H1; cbn [bind]; [|discriminate].
    destruct (visit lo2 hi acct) as [o2|] eqn:H2; cbn [bind]; [|discriminate].
    rewrite (visit_narrow lo1 lo2 hi acct o1 o2 Hlo H1 H2).
    rewrite (scan_from_nil lo1), (scan_from_nil lo2).
    destruct (scan lo1 hi rest []) as [a1|]; cbn [bind]; [|discriminate].
    destruct (scan lo2 hi rest []) as [a2|]; cbn [bind]; [|discriminate].
    specialize (IH a1 a2 eq_refl eq_refl). intros [= <-] [= <-].
    rewrite filter_app, <- IH.
    destruct o2 as [m|]; cbn [app filter]; [|reflexivity].
    now destruct (slot_at_least lo1 m).
Qed.

End Steps.

(** X9. What the body of the loop does with one account.  It raises when the
    slot field cannot be read, when the slot is not a number (a
    [TypeError]), or when the slot is in the window and the pubkey cannot
    be read; it skips the account exactly when the slot is a number outside
    the window, whether the account has a pubkey or not. *)
Theorem visit_outcomes :
  forall (start_slot current_slot : Z) (acct : pyval),
    (forall e : exn,
       visit start_slot current_slot acct = Raise e
       <-> (slot_field acct = Raise e
            \/ (exists slot : pyval,
                  slot_field acct = Ok slot
                  /\ as_int slot = None /\ e = TypeError)
            \/ (in_window start_slot current_slot acct = true
                /\ getitem_key acct "pubkey" = Raise e)))
    /\ (visit start_slot current_slot acct = Ok None
        <-> exists (slot : pyval) (s : Z),
              slot_field acct = Ok slot
              /\ as_int slot = Some s
              /\ ~ (start_slot <= s <= current_slot)).
Proof.
  intros lo hi acct. unfold visit, in_window, slot_field, int_operand.
  destruct (getitem_key acct "account") as [account|e0]; cbn [bind].
  2:{ split; [intros e|]; split; try discriminate.
      - intros [= ->]. now left.
      - intros [[= ->]|[(? & ? & _)|[? _]]]; congruence.
      - intros (? & ? & ? & _). discriminate. }
  destruct (getitem_key account "data") as [data|e0]; cbn [bind].
  2:{ split; [intros e|]; split; try discriminate.
      - intros [= ->]. now left.
      - intros [[= ->]|[(? & ? & _)|[? _]]]; congruence.
      - intros (? & ? & ? & _). discriminate. }
  destruct (getitem_index data 1) as [slot|e0]; cbn [bind].
  2:{ split; [intros e|]; split; try discriminate.
      - intros [= ->]. now left.
      - intros [[= ->]|[(? & ? & _)|[? _]]]; congruence.
      - intros (? & ? & ? & _). discriminate. }
  destruct (as_int slot) as [s|] eqn:Hs; cbn [bind].
  2:{ split; [intros e|]; split; try discriminate.
      - intros [= <-]. right; left. eauto.
      - intros [?|[(? & _ & _ & ->)|[? _]]]; congruence.
      - intros (? & ? & [= <-] & ? & _). congruence. }
  destruct (Z.leb_spec lo s) as [Hlo|Hlo]; cbn [andb].
  2:{ split; [intros e|]; split; try discriminate.
      - intros [?|[(? & [= <-] & ? & _)|[? _]]]; congruence.
      - intros _. exists slot, s. repeat split; [assumption | lia].
      - reflexivity. }
  destruct (Z.leb_spec s hi) as [Hhi|Hhi].
  2:{ split; [intros e|]; split; try discriminate.
      - intros [?|[(? & [= <-] & ? & _)|[? _]]]; congruence.
      - intros _. exists slot, s. repeat split; [assumption | lia].
      - reflexivity. }
  destruct (getitem_key acct "pubkey") as [pubkey|e0]; cbn [bind].
  - split; [intros e|]; split; try discriminate.
    + intros [?|[(? & [= <-] & ? & _)|[_ ?]]]; congruence.
    + intros (? & s' & [= <-] & Hs' & Hout).
      assert (s' = s) by congruence. lia.
  - split; [intros e|]; split; try discriminate.
    + intros [= ->]. right; right. auto.
    + intros [?|[(? & [= <-] & ? & _)|[_ ?]]]; congruence.
    + intros (? & s' & [= <-] & Hs' & Hout).
      assert (s' = s) by congruence. lia.
Qed.

Lemma visit_outcomes_witness :
  visit 50 150
    (PyDict [("account"%string,
              PyDict [("data"%string, PyList [PyInt 0; PyInt 200])])])
  = Ok None.
Proof.
  apply (proj2 (visit_outcomes 50 150
                  (PyDict [("account"%string,
                            PyDict [("data"%string,
                                     PyList [PyInt 0; PyInt 200])])]))).
  exists (PyInt 200), 200. repeat split; lia.
Defined.

(** X12. A shorter lookback finds what a longer one finds, less the records that
    are too old for it: when both calls return on the same responses, the
    result of the shorter is the result of the longer filtered by the start
    of the shorter window. *)
Theorem track_fresh_mints_shorter_lookback :
  forall (net : network) (shorter longer : Z) (fresh1 fresh2 : list fresh_mint),
    shorter <= longer ->
    track_fresh_mints net shorter = Ok fresh1 ->
    track_fresh_mints net longer = Ok fresh2 ->
    exists (r : pyval) (cur : Z),
      get_slot (net RPC_URL) = Ok r
      /\ decode_slot r = Ok cur
      /\ fresh1 = filter (slot_at_least (cur - shorter)) fresh2.
Proof.
  intros net shorter longer fresh1 fresh2 Hle.
  rewrite !track_fresh_mints_steps.
  destruct (get_slot (net RPC_URL)) as [r|]; cbn [bind]; [|discriminate].
  destruct (decode_slot r) as [cur|] eqn:Hcur; cbn [bind]; [|discriminate].
  destruct (get_program_accounts (net RPC_URL) PROGRAM_ID) as [resp|];
    cbn [bind]; [|discriminate].
  destruct (decode_accounts resp) as [accts|]; cbn [bind]; [|discriminate].
  intros H1 H2. exists r, cur.
  split; [reflexivity|]. split; [exact Hcur|].
  apply (scan_narrow (cur - shorter) (cur - longer) cur accts); (lia || assumption).
Qed.

Lemma track_fresh_mints_shorter_lookback_witness :
  100 <= 5000
  /\ exists (r : pyval) (cur : Z),
       get_slot (net_150 RPC_URL) = Ok r
       /\ decode_slot r = Ok cur
       /\ [{| mint := PyStr "mintB"; firstSeenSlot := PyInt 100 |}]
          = filter (slot_at_least (cur - 100))
              [{| mint := PyStr "mintA"; firstSeenSlot := PyInt 10 |};
               {| mint := PyStr "mintB"; firstSeenSlot := PyInt 100 |}].
Proof.
  split; [lia|].
  apply (track_fresh_mints_shorter_lookback net_150 100 5000);
    [lia | reflexivity | reflexivity].
Defined.

(** X13. When the value under ["result"] of the accounts response is not a
    list, the call returns the empty list if that value is an empty string
    or an empty dict, and raises a [TypeError] otherwise. *)
Theorem track_fresh_mints_result_not_a_list :
  forall (net : network) (lookback_slots : Z) (r resp accounts : pyval)
         (cur : Z),
    get_slot (net RPC_URL) = Ok r ->
    decode_slot r = Ok cur ->
    get_program_accounts (net RPC_URL) PROGRAM_ID = Ok resp ->
    getitem_key resp "result" = Ok accounts ->
    is_list accounts = false ->
    track_fresh_mints net lookback_slots
    = if is_empty_value accounts then Ok [] else Raise TypeError.
Proof.
  intros net lookback_slots r resp accounts cur Hr Hcur Hresp Hacc Hlist.
  rewrite track_fresh_mints_steps, Hr. cbn [bind].
  rewrite Hcur. cbn [bind]. rewrite Hresp. cbn [bind].
  unfold decode_accounts. rewrite Hacc. cbn [bind].
  destruct accounts as [| | |s| |entries]; try reflexivity.
  - destruct s; reflexivity.
  - discriminate.
  - destruct entries as [|[k v] entries]; reflexivity.
Qed.

Lemma track_fresh_mints_result_not_a_list_witness :
  is_list (PyStr "none") = false
  /\ track_fresh_mints (net_with (PyStr "none")) 100 = Raise TypeError
  /\ track_fresh_mints (net_with (PyDict [])) 100 = Ok [].
Proof.
  split; [reflexivity|]. split.
  - apply (track_fresh_mints_result_not_a_list (net_with (PyStr "none")) 100
             (PyDict [("result"%string, PyInt 150)])
             (PyDict [("result"%string, PyStr "none")])
             (PyStr "none") 150); reflexivity.
  - apply (track_fresh_mints_result_not_a_list (net_with (PyDict [])) 100
             (PyDict [("result"%string, PyInt 150)])
             (PyDict [("result"%string, PyDict [])])
             (PyDict []) 150); reflexivity.
Defined.

(** ** The loop of the program, further *)

Section LoopHistory.

Variable env_at : nat -> surroundings.

Lemma no_sleep_among_mints (mints : list fresh_mint) :
  filter is_sleep (map Print_mint mints) = []
  /\ filter is_print_found (map Print_mint mints) = [].
Proof. induction mints; cbn; auto. Qed.

(** A turn that went through has slept once, for 300 seconds, and printed
    one heading. *)
Lemma pass_events_counts (mints : list fresh_mint) :
  filter is_sleep (pass_events mints) = [Sleep 300]
  /\ length (filter is_print_found (pass_events mints)) = 1%nat.
Proof.
  unfold pass_events. cbn [filter is_sleep is_print_found].
  rewrite !filter_app. cbn [filter is_sleep is_print_found].
  destruct (no_sleep_among_mints mints) as [-> ->]. auto.
Qed.

(** A turn that an exception cut short has not slept, and has printed one
    heading at most. *)
Lemma fails_counts (env : surroundings) (e : exn) (seen : list event) :
  fails env e seen ->
  filter is_sleep seen = []
  /\ (length (filter is_print_found seen) <= 1)%nat.
Proof.
  intros [[_ ->]|[(mints & i & _ & _ & _ & _ & ->)|(mints & _ & _ & _ & ->)]].
  - cbn. auto.
  - destruct i as [|i]; [cbn; auto|].
    cbn [firstn filter is_sleep is_print_found length].
    rewrite firstn_map.
    destruct (no_sleep_among_mints (firstn i mints)) as [-> ->]. auto.
  - cbn [filter is_sleep is_print_found length].
    destruct (no_sleep_among_mints mints) as [-> ->]. auto.
Qed.

Lemma turn_counts (p : process) :
  filter is_sleep (output p) = repeat (Sleep 300) (iterations p)
  /\ (iterations p <= length (filter is_print_found (output p))
      <= iterations p + 1)%nat
  /\ (state p = Running ->
      length (filter is_print_found (output p)) = iterations p) ->
  filter is_sleep (output (turn env_at p))
  = repeat (Sleep 300) (iterations (turn env_at p))
  /\ (iterations (turn env_at p)
      <= length (filter is_print_found (output (turn env_at p)))
      <= iterations (turn env_at p) + 1)%nat
  /\ (state (turn env_at p) = Running ->
      length (filter is_print_found (output (turn env_at p)))
      = iterations (turn env_at p)).
Proof.
  intros (Hs & Hp & Hrun). unfold turn.
  destruct (state p) as [|e0] eqn:Hst; [|rewrite Hst; auto].
  specialize (Hrun eq_refl).
  destruct (pass_inv (env_at (iterations p)))
    as [(mints & _ & ->)|(e & seen & Hf & ->)];
    cbn [output iterations state]; rewrite !filter_app, length_app, Hs, Hrun.
  - destruct (pass_events_counts mints) as [-> ->].
    change [Sleep 300] with (repeat (Sleep 300) 1).
    rewrite <- repeat_app. rewrite Nat.add_1_r.
    split; [reflexivity|]. split; [lia | reflexivity].
  - destruct (fails_counts _ _ _ Hf) as [-> Hle].
    rewrite app_nil_r. split; [reflexivity|]. split; [lia | discriminate].
Qed.

(** The turns made before the one the program is at went through; a
    program that is running after [k] turns has made [k] passes, and one
    that has ended did so at a turn one of whose calls raised. *)
Lemma turn_history (k : nat) (p : process) :
  (forall j : nat, (j < iterations p)%nat ->
     exists mints : list fresh_mint, clean (env_at j) mints)
  /\ (state p = Running -> iterations p = k)
  /\ (forall e : exn, state p = Crashed e ->
        (iterations p < k)%nat
        /\ exists seen : list event, fails (env_at (iterations p)) e seen) ->
  (forall j : nat, (j < iterations (turn env_at p))%nat ->
     exists mints : list fresh_mint, clean (env_at j) mints)
  /\ (state (turn env_at p) = Running -> iterations (turn env_at p) = S k)
  /\ (forall e : exn, state (turn env_at p) = Crashed e ->
        (iterations (turn env_at p) < S k)%nat
        /\ exists seen : list event,
             fails (env_at (iterations (turn env_at p))) e seen).
Proof.
  intros (Hok & Hrun & Hcrash). unfold turn.
  destruct (state p) as [|e0] eqn:Hst.
  - specialize (Hrun eq_refl).
    destruct (pass_inv (env_at (iterations p)))
      as [(mints & Hclean & ->)|(e & seen & Hf & ->)];
      cbn [iterations state].
    + split; [|split; [intros _; lia | discriminate]].
      intros j Hj. destruct (Nat.eq_dec j (iterations p)) as [->|Hne].
      * eauto.
      * apply Hok. lia.
    + split; [exact Hok|]. split; [discriminate|].
      intros e' [= <-]. split; [lia | eauto].
  - rewrite Hst. split; [exact Hok|]. split; [discriminate|].
    intros e He. destruct (Hcrash e He) as [Hlt Hraise].
    split; [lia | exact Hraise].
Qed.

Lemma main_history (n : nat) :
  (forall j : nat, (j < iterations (main env_at n))%nat ->
     exists mints : list fresh_mint, clean (env_at j) mints)
  /\ (state (main env_at n) = Running -> iterations (main env_at n) = n)
  /\ (forall e : exn, state (main env_at n) = Crashed e ->
        (iterations (main env_at n) < n)%nat
        /\ exists seen : list event,
             fails (env_at (iterations (main env_at n))) e seen).
Proof.
  unfold main. induction n as [|n IH].
  - cbn. repeat split; try discriminate; lia.
  - rewrite turns_succ. now apply turn_history.
Qed.

End LoopHistory.

(** X14. The program is still running after [n] turns exactly when every
    call of each of the first [n] turns returned ([track_fresh_mints],
    each [print], [time.sleep]).  When it has ended, it ended at the first
    turn one of whose calls raised, with the exception of the first call of
    that turn that raised, and the number of passes it made is the number
    of turns that went through before. *)
Theorem main_running_iff :
  forall (env_at : nat -> surroundings) (n : nat),
    (state (main env_at n) = Running
     <-> forall k : nat, (k < n)%nat ->
           exists mints : list fresh_mint, clean (env_at k) mints)
    /\ (forall e : exn,
          state (main env_at n) = Crashed e ->
          (iterations (main env_at n) < n)%nat
          /\ (exists seen : list event,
                fails (env_at (iterations (main env_at n))) e seen)
          /\ forall j : nat, (j < iterations (main env_at n))%nat ->
               exists mints : list fresh_mint, clean (env_at j) mints).
Proof.
  intros env_at n. destruct (main_history env_at n) as (Hok & Hrun & Hcrash).
  split; [split|].
  - intros Hst k Hk. apply Hok. rewrite (Hrun Hst). exact Hk.
  - intros Hall. unfold main. rewrite turns_running; [reflexivity.. |].
    intros k Hk. apply Hall. cbn in Hk. lia.
  - intros e Hst. destruct (Hcrash e Hst) as [Hlt Hraise]. auto.
Qed.

Lemma main_running_iff_witness :
  state (main (fun _ => closed_pipe) 5) = Crashed OSError
  /\ (iterations (main (fun _ => closed_pipe) 5) < 5)%nat
  /\ exists seen : list event,
       fails closed_pipe OSError seen.
Proof.
  split; [reflexivity|].
  destruct (proj2 (main_running_iff (fun _ => closed_pipe) 5)
              OSError eq_refl) as (Hlt & Hraise & _).
  split; assumption.
Defined.

(** X16. Whatever happens around it, the program has slept once for each
    pass it made, always for 300 seconds; it has printed one heading for
    each pass it made, and at most one more, for a turn that an exception
    cut short; while it runs it has printed exactly one heading a pass;
    and it made no more passes than turns. *)
Theorem main_sleeps_once_a_pass :
  forall (env_at : nat -> surroundings) (n : nat),
    filter is_sleep (output (main env_at n))
    = repeat (Sleep 300) (iterations (main env_at n))
    /\ (iterations (main env_at n)
        <= length (filter is_print_found (output (main env_at n)))
        <= iterations (main env_at n) + 1)%nat
    /\ (state (main env_at n) = Running ->
        length (filter is_print_found (output (main env_at n)))
        = iterations (main env_at n))
    /\ (iterations (main env_at n) <= n)%nat.
Proof.
  intros env_at n.
  assert (Hcount :
            filter is_sleep (output (main env_at n))
            = repeat (Sleep 300) (iterations (main env_at n))
            /\ (iterations (main env_at n)
                <= length (filter is_print_found (output (main env_at n)))
                <= iterations (main env_at n) + 1)%nat
            /\ (state (main env_at n) = Running ->
                length (filter is_print_found (output (main env_at n)))
                = iterations (main env_at n))).
  { unfold main. induction n as [|n IH].
    - cbn. repeat split; lia.
    - rewrite turns_succ. now apply turn_counts. }
  destruct Hcount as (Hs & Hp & Hr).
  split; [exact Hs|]. split; [exact Hp|]. split; [exact Hr|].
  destruct (main_history env_at n) as (_ & Hrun & Hcrash).
  destruct (state (main env_at n)) as [|e] eqn:Hst.
  - rewrite (Hrun eq_refl). lia.
  - destruct (Hcrash e eq_refl). lia.
Qed.

Lemma main_sleeps_once_a_pass_witness :
  state (main (fun _ => calm net_150) 3) = Running
  /\ length (filter is_print_found (output (main (fun _ => calm net_150) 3)))
     = iterations (main (fun _ => calm net_150) 3).
Proof.
  split; [reflexivity|].
  apply (proj1 (proj2 (proj2
           (main_sleeps_once_a_pass (fun _ => calm net_150) 3)))).
  reflexivity.
Defined.
